(** * Content negotiation of the account example: encoding_http.go

    A shallow embedding of [examples/account/gen/transport/encoding_http.go]
    (package [transport]) and of the parts of the Go standard library that
    decide what it returns: [mime.ParseMediaType] with its helpers from
    [mime/grammar.go] and [mime/mediatype.go], [strings.ToLower],
    [strings.TrimSpace], [strings.TrimLeftFunc] with [unicode.IsSpace],
    [base64.RawURLEncoding], [http.Header] and [http.ResponseWriter].

    Go strings are byte sequences: they are modelled by [string], whose
    characters are the 256 values of [ascii]. *)

From Stdlib Require Import String Ascii NArith ZArith List Bool Lia DecimalString.
From stdpp Require Import base option gmap strings.

Local Open Scope string_scope.

(** ** Bytes and slices *)

(** The numeric value of a byte. *)
Definition byteval (c : ascii) : N := N_of_ascii c.

(** [s[n:]] *)
Fixpoint sdrop (n : nat) (s : string) : string :=
  match n, s with
  | O, _ => s
  | S n', String _ s' => sdrop n' s'
  | S _, EmptyString => EmptyString
  end.

(** [s[:n]] *)
Fixpoint stake (n : nat) (s : string) : string :=
  match n, s with
  | O, _ => EmptyString
  | S n', String c s' => String c (stake n' s')
  | S _, EmptyString => EmptyString
  end.

(** The bytes of a string, last first. *)
Fixpoint srev_append (s acc : string) : string :=
  match s with
  | EmptyString => acc
  | String c s' => srev_append s' (String c acc)
  end.

Definition srev (s : string) : string := srev_append s EmptyString.

(** [strings.HasPrefix(s, string(c))] for a one-byte prefix. *)
Definition hasPrefixByte (c : ascii) (s : string) : bool :=
  match s with
  | String d _ => Ascii.eqb d c
  | EmptyString => false
  end.

(** [strings.Cut(s, string(sep))]: the part before the first [sep] and whether
    [sep] was found; the whole of [s] when it was not. *)
Fixpoint cut (sep : ascii) (s : string) : string * bool :=
  match s with
  | EmptyString => (EmptyString, false)
  | String c s' =>
      if Ascii.eqb c sep then (EmptyString, true)
      else let '(before, found) := cut sep s' in (String c before, found)
  end.

(** ** package unicode and package strings *)

(** The ASCII entries of [unicode.IsSpace]: tab, newline, vertical tab, form
    feed, carriage return, space. *)
Definition isASCIISpace (c : ascii) : bool :=
  let n := byteval c in
  ((9 <=? n) && (n <=? 13) || (n =? 32))%N.

(** The two-byte UTF-8 encodings of white space: U+0085 and U+00A0. *)
Definition isSpace2 (c d : ascii) : bool :=
  ((byteval c =? 194) && ((byteval d =? 133) || (byteval d =? 160)))%N.

(** The three-byte UTF-8 encodings of white space: U+1680, U+2000 to U+200A,
    U+2028, U+2029, U+202F, U+205F and U+3000. *)
Definition isSpace3 (c d e : ascii) : bool :=
  let '(c, d, e) := (byteval c, byteval d, byteval e) in
  ((c =? 225) && (d =? 154) && (e =? 128)
   || (c =? 226) && (d =? 128)
      && ((128 <=? e) && (e <=? 138) || (e =? 168) || (e =? 169) || (e =? 175))
   || (c =? 226) && (d =? 129) && (e =? 159)
   || (c =? 227) && (d =? 128) && (e =? 128))%N.

(** [strings.TrimLeftFunc(s, unicode.IsSpace)]: runes are decoded one at a time
    from the front; a byte sequence that is not the encoding of a white space
    rune (an invalid one decodes to U+FFFD) ends the scan. *)
Fixpoint trimLeftSpace (s : string) : string :=
  match s with
  | EmptyString => EmptyString
  | String c s1 =>
      if isASCIISpace c then trimLeftSpace s1
      else
        match s1 with
        | EmptyString => s
        | String d s2 =>
            if isSpace2 c d then trimLeftSpace s2
            else
              match s2 with
              | EmptyString => s
              | String e s3 => if isSpace3 c d e then trimLeftSpace s3 else s
              end
        end
  end.

(** The same scan over the reversed string: [utf8.DecodeLastRuneInString] finds
    the last rune by walking back to its first byte. *)
Fixpoint trimLeftSpaceRev (s : string) : string :=
  match s with
  | EmptyString => EmptyString
  | String c s1 =>
      if isASCIISpace c then trimLeftSpaceRev s1
      else
        match s1 with
        | EmptyString => s
        | String d s2 =>
            if isSpace2 d c then trimLeftSpaceRev s2
            else
              match s2 with
              | EmptyString => s
              | String e s3 => if isSpace3 e d c then trimLeftSpaceRev s3 else s
              end
        end
  end.

(** [strings.TrimRightFunc(s, unicode.IsSpace)] *)
Definition trimRightSpace (s : string) : string :=
  srev (trimLeftSpaceRev (srev s)).

(** [strings.TrimSpace(s)] *)
Definition TrimSpace (s : string) : string :=
  trimRightSpace (trimLeftSpace s).

(** [c < utf8.RuneSelf] for every byte of [s]. *)
Fixpoint isASCII (s : string) : bool :=
  match s with
  | EmptyString => true
  | String c s' => (byteval c <? 128)%N && isASCII s'
  end.

(** ['A' <= c && c <= 'Z'] then [c += 'a' - 'A']. *)
Definition lowerByte (c : ascii) : ascii :=
  let n := byteval c in
  if ((65 <=? n) && (n <=? 90))%N then ascii_of_N (n + 32) else c.

Fixpoint asciiLower (s : string) : string :=
  match s with
  | EmptyString => EmptyString
  | String c s' => String (lowerByte c) (asciiLower s')
  end.

(** ** package mime: grammar.go and mediatype.go *)

(** The value of [err]: [None] is Go's [nil]. *)
Inductive mimeError : Type :=
  | errNoMediaType           (* mime: no media type *)
  | errExpectedSlash         (* mime: expected slash after first token *)
  | errExpectedToken         (* mime: expected token after slash *)
  | errUnexpectedContent     (* mime: unexpected content after media subtype *)
  | ErrInvalidMediaParameter (* mime: invalid media parameter *)
  | errDuplicateParameter.   (* mime: duplicate parameter name *)

Definition dquote : ascii := "034"%char.
Definition backslash : ascii := "092"%char.

(** The characters of RFC 2045's tspecials: ( ) < > @ , ; : \ dquote / [ ] ? = *)
Definition tspecials : string :=
  "()<>@,;:" +:+ String backslash (String dquote "/[]?=").

(** [strings.ContainsRune(s, rune(c))] for an ASCII [s]. *)
Fixpoint containsByte (s : string) (c : ascii) : bool :=
  match s with
  | EmptyString => false
  | String d s' => Ascii.eqb d c || containsByte s' c
  end.

Definition isTSpecial (c : ascii) : bool := containsByte tspecials c.

(** [r > 0x20 && r < 0x7f && !isTSpecial(r)]. A rune of two bytes or more is
    no token character and neither is any of its bytes, so the byte-wise
    scan stops where the rune-wise one does. *)
Definition isTokenChar (c : ascii) : bool :=
  ((32 <? byteval c) && (byteval c <? 127))%N && negb (isTSpecial c).

Definition isNotTokenChar (c : ascii) : bool := negb (isTokenChar c).

(** [strings.IndexFunc(s, f)]; [None] is Go's -1. *)
Fixpoint IndexFunc (f : ascii -> bool) (s : string) : option nat :=
  match s with
  | EmptyString => None
  | String c s' => if f c then Some O else S <$> IndexFunc f s'
  end.

Definition consumeToken (v : string) : string * string :=
  match IndexFunc isNotTokenChar v with
  | None => (v, EmptyString)
  | Some O => (EmptyString, v)
  | Some notPos => (stake notPos v, sdrop notPos v)
  end.

Definition isCRLF (c : ascii) : bool :=
  ((byteval c =? 13) || (byteval c =? 10))%N.

(** The loop of [consumeValue] over a quoted string: [s] is [v[i:]], [buffer]
    what was unquoted so far, [v] the whole value, returned on failure. *)
Fixpoint quotedString (v s buffer : string) : string * string :=
  match s with
  | EmptyString => (EmptyString, v)
  | String r s1 =>
      if Ascii.eqb r dquote then (buffer, s1)
      else
        match s1 with
        | String r1 s2 =>
            if Ascii.eqb r backslash && isTSpecial r1
            then quotedString v s2 (buffer +:+ String r1 EmptyString)
            else if isCRLF r then (EmptyString, v)
            else quotedString v s1 (buffer +:+ String r EmptyString)
        | EmptyString =>
            if isCRLF r then (EmptyString, v)
            else quotedString v s1 (buffer +:+ String r EmptyString)
        end
  end.

Definition consumeValue (v : string) : string * string :=
  match v with
  | EmptyString => (EmptyString, EmptyString)
  | String c v1 =>
      if negb (Ascii.eqb c dquote) then consumeToken v
      else quotedString v v1 EmptyString
  end.

Definition checkMediaTypeDisposition (s : string) : option mimeError :=
  let '(typ, rest) := consumeToken s in
  if String.eqb typ "" then Some errNoMediaType
  else if String.eqb rest "" then None
  else if negb (hasPrefixByte "/" rest) then Some errExpectedSlash
  else
    let '(subtype, rest) := consumeToken (sdrop 1 rest) in
    if String.eqb subtype "" then Some errExpectedToken
    else if negb (String.eqb rest "") then Some errUnexpectedContent
    else None.

(** [strings.Map(unicode.ToLower, s)], which [strings.ToLower] falls back on
    when [s] holds a byte outside ASCII. It reads package unicode's case
    tables, which differ between releases of Go; they are a parameter of
    the development and nothing is assumed of them. *)
Class UnicodeTables : Type := {
  unicodeToLower : string -> string;
}.

Section Transport.

Context {U : UnicodeTables}.

(** [strings.ToLower(s)] *)
Definition ToLower (s : string) : string :=
  if isASCII s then asciiLower s else unicodeToLower s.

Definition consumeMediaParam (v : string) : string * string * string :=
  let rest := trimLeftSpace v in
  if negb (hasPrefixByte ";" rest) then (EmptyString, EmptyString, v)
  else
    let rest := sdrop 1 rest in
    let rest := trimLeftSpace rest in
    let '(param, rest) := consumeToken rest in
    let param := ToLower param in
    if String.eqb param "" then (EmptyString, EmptyString, v)
    else
      let rest := trimLeftSpace rest in
      if negb (hasPrefixByte "=" rest) then (EmptyString, EmptyString, v)
      else
        let rest := sdrop 1 rest in
        let rest := trimLeftSpace rest in
        let '(value, rest2) := consumeValue rest in
        if String.eqb value "" && String.eqb rest2 rest
        then (EmptyString, EmptyString, v)
        else (param, value, rest2).

(** What one round of the parameter loop of [ParseMediaType] ends in: the
    function returns (or the loop breaks, and the function returns what it
    has), or the loop goes on with the rest of [v] and the maps as filled. *)
Inductive Round : Type :=
  | Return (mediatype : string) (err : option mimeError)
  | Continue (v : string) (params : gmap string string)
      (continuation : gmap string (gmap string string)).

(** The body of [for len(v) > 0 { ... }], with the two maps it fills: [params],
    and [continuation] for the names that hold a star. A name met again with
    another value is an error; met again with the same value it is let
    through (older releases of Go refuse it too). The result of the function
    is the pair (mediatype, err); the parameter map itself is dropped by
    every caller in encoding_http.go and is not returned here. *)
Definition paramRound (mediatype v : string) (params : gmap string string)
    (continuation : gmap string (gmap string string)) : Round :=
  if String.eqb v "" then Return mediatype None
  else
    let v := trimLeftSpace v in
    if String.eqb v "" then Return mediatype None
    else
      let '(key, value, rest) := consumeMediaParam v in
      if String.eqb key "" then
        if String.eqb (TrimSpace rest) ";" then Return mediatype None
        else Return mediatype (Some ErrInvalidMediaParameter)
      else
        let '(baseName, ok) := cut "*" key in
        let pmap :=
          if ok then default ∅ (continuation !! baseName) else params in
        let duplicate :=
          match pmap !! key with
          | Some v0 => negb (String.eqb v0 value)
          | None => false
          end in
        if duplicate then Return EmptyString (Some errDuplicateParameter)
        else if ok then
          Continue rest params
            (<[baseName := <[key := value]> pmap]> continuation)
        else Continue rest (<[key := value]> params) continuation.

(** The loop. Every round that goes on shortens [v] ([paramRound_shortens]
    below), so [String.length v] rounds are enough and more change nothing
    ([paramLoop_fuel]). *)
Fixpoint paramLoop (fuel : nat) (mediatype v : string)
    (params : gmap string string)
    (continuation : gmap string (gmap string string))
    : string * option mimeError :=
  match fuel with
  | O => (mediatype, None)
  | S fuel' =>
      match paramRound mediatype v params continuation with
      | Return mediatype err => (mediatype, err)
      | Continue v params continuation =>
          paramLoop fuel' mediatype v params continuation
      end
  end.

(** [mime.ParseMediaType(v)], its first and third results. *)
Definition ParseMediaType (v : string) : string * option mimeError :=
  let '(base, _) := cut ";" v in
  let mediatype := TrimSpace (ToLower base) in
  match checkMediaTypeDisposition mediatype with
  | Some err => (EmptyString, Some err)
  | None =>
      let v := sdrop (String.length base) v in
      paramLoop (String.length v) mediatype v ∅ ∅
  end.

(** ** net/http: requests *)

(** [http.Request], the two fields the package reads. *)
Record Request : Type := {
  Header : gmap string (list string);
  Body : string;
}.

(** [h.Get(key)] for a [key] in canonical form, as [Content-Type] and [Accept]
    are: the first value stored under the key, the empty string when there
    is none. *)
Definition Header_Get (h : gmap string (list string)) (key : string) : string :=
  match h !! key with
  | Some (v :: _) => v
  | _ => EmptyString
  end.

(** ** encoding_http.go: selection *)

(** A [rest.Decoder]: which package decodes, and the body it reads from. *)
Inductive Decoder : Type :=
  | json_NewDecoder (body : string)
  | gob_NewDecoder (body : string)
  | xml_NewDecoder (body : string).

(** A reference to an [http.ResponseWriter]. *)
Definition WriterRef : Type := nat.

(** A [rest.Encoder]: which package encodes, and the writer it writes to. *)
Inductive Encoder : Type :=
  | json_NewEncoder (w : WriterRef)
  | gob_NewEncoder (w : WriterRef)
  | xml_NewEncoder (w : WriterRef).

Definition NewHTTPDecoder (r : Request) : Decoder :=
  let contentType := Header_Get (Header r) "Content-Type" in
  let contentType :=
    if String.eqb contentType "" then "application/json"
    else
      match ParseMediaType contentType with
      | (mediaType, None) => mediaType
      | (_, Some _) => contentType
      end in
  if String.eqb contentType "application/json" then json_NewDecoder (Body r)
  else if String.eqb contentType "application/gob" then gob_NewDecoder (Body r)
  else if String.eqb contentType "application/xml" then xml_NewDecoder (Body r)
  else json_NewDecoder (Body r).

Definition NewHTTPEncoder (w : WriterRef) (r : Request) : Encoder :=
  let accept := Header_Get (Header r) "Accept" in
  let accept :=
    if String.eqb accept "" then "application/json"
    else
      match ParseMediaType accept with
      | (mediaType, None) => mediaType
      | (_, Some _) => accept
      end in
  if String.eqb accept "application/json" then json_NewEncoder w
  else if String.eqb accept "application/gob" then gob_NewEncoder w
  else if String.eqb accept "application/xml" then xml_NewEncoder w
  else json_NewEncoder w.

Definition ResponseContentType (r : Request) : string :=
  let accept := Header_Get (Header r) "Accept" in
  if String.eqb accept "" then "application/json"
  else
    let accept :=
      match ParseMediaType accept with
      | (mediaType, None) => mediaType
      | (_, Some _) => accept
      end in
    if String.eqb accept "application/json"
       || String.eqb accept "application/gob"
       || String.eqb accept "application/xml"
    then accept
    else "application/json".

End Transport.

(** ** net/http: response writers *)

(** An [http.ResponseWriter] as the server implements it: the header map the
    handler edits, the status line and headers once [WriteHeader] has sent
    them, the body bytes written, and the error its connection answers a
    [Write] with, if any. *)
Record ResponseWriter : Type := {
  rw_header : gmap string (list string);
  rw_sent : option (Z * gmap string (list string));
  rw_body : string;
  rw_failure : option string;
}.

(** [w.Header().Set(key, value)] for a [key] in canonical form. *)
Definition rw_Header_Set (key value : string) (w : ResponseWriter) : ResponseWriter :=
  {| rw_header := <[key := [value]]> (rw_header w);
     rw_sent := rw_sent w;
     rw_body := rw_body w;
     rw_failure := rw_failure w |}.

(** [w.WriteHeader(code)]: the first call sends the status line and the header
    map as it stands; a later call changes nothing. *)
Definition rw_WriteHeader (code : Z) (w : ResponseWriter) : ResponseWriter :=
  match rw_sent w with
  | Some _ => w
  | None =>
      {| rw_header := rw_header w;
         rw_sent := Some (code, rw_header w);
         rw_body := rw_body w;
         rw_failure := rw_failure w |}
  end.

(** [w.Write(data)], its error result: it sends the header with status 200
    first when none was sent, then the bytes, unless the connection fails. *)
Definition rw_Write (data : string) (w : ResponseWriter) : ResponseWriter * option string :=
  let w := rw_WriteHeader 200 w in
  match rw_failure w with
  | Some err => (w, Some err)
  | None =>
      ({| rw_header := rw_header w;
          rw_sent := rw_sent w;
          rw_body := rw_body w +:+ data;
          rw_failure := rw_failure w |}, None)
  end.

(** ** The world a handler runs in *)

(** One call of [logger.Error(ctx, keyvals...)]: the keys and values passed,
    an error standing for its message. *)
Inductive LogEntry : Type :=
  | logger_Error (keyvals : list string).

(** The response writers by reference, the log written so far, and the bytes
    [crypto/rand.Reader] will deliver next. *)
Record World : Type := {
  writers : WriterRef -> ResponseWriter;
  logged : list LogEntry;
  entropy : string;
}.

Definition updWriter (w : WriterRef) (f : ResponseWriter -> ResponseWriter)
    (σ : World) : World :=
  {| writers := fun w' => if Nat.eqb w' w then f (writers σ w') else writers σ w';
     logged := logged σ;
     entropy := entropy σ |}.

Definition writeTo (w : WriterRef) (data : string) (σ : World) : World * option string :=
  let '(w', err) := rw_Write data (writers σ w) in
  (updWriter w (fun _ => w') σ, err).

Definition log (entry : LogEntry) (σ : World) : World :=
  {| writers := writers σ;
     logged := logged σ ++ [entry];
     entropy := entropy σ |}.

(** [b := make([]byte, n); io.ReadFull(rand.Reader, b)] with the error dropped:
    [b] holds the bytes read and zeroes after them when the reader ran short. *)
Fixpoint readFull (n : nat) (src : string) : string * string :=
  match n with
  | O => (EmptyString, src)
  | S n' =>
      match src with
      | EmptyString =>
          let '(b, rest) := readFull n' EmptyString in (String zero b, rest)
      | String c src' =>
          let '(b, rest) := readFull n' src' in (String c b, rest)
      end
  end.

Definition rand_Read (n : nat) (σ : World) : string * World :=
  let '(b, rest) := readFull n (entropy σ) in
  (b, {| writers := writers σ; logged := logged σ; entropy := rest |}).

(** ** encoding/base64: RawURLEncoding *)

Definition encodeURL : string :=
  "ABCDEFGHIJKLMNOPQRSTUVWXYZabcdefghijklmnopqrstuvwxyz0123456789-_".

(** [enc.encode[i]] *)
Definition encodeAt (i : N) : ascii :=
  match String.get (N.to_nat i) encodeURL with
  | Some c => c
  | None => zero
  end.

(** [Encoding.Encode] without padding: three source bytes give four
    characters, a remainder of two gives three and a remainder of one two. *)
Fixpoint RawURLEncoding_EncodeToString (src : string) : string :=
  match src with
  | EmptyString => EmptyString
  | String s0 EmptyString =>
      let val := N.shiftl (byteval s0) 16 in
      String (encodeAt (N.land (N.shiftr val 18) 63))
        (String (encodeAt (N.land (N.shiftr val 12) 63)) EmptyString)
  | String s0 (String s1 EmptyString) =>
      let val := N.lor (N.shiftl (byteval s0) 16) (N.shiftl (byteval s1) 8) in
      String (encodeAt (N.land (N.shiftr val 18) 63))
        (String (encodeAt (N.land (N.shiftr val 12) 63))
           (String (encodeAt (N.land (N.shiftr val 6) 63)) EmptyString))
  | String s0 (String s1 (String s2 rest)) =>
      let val :=
        N.lor (N.lor (N.shiftl (byteval s0) 16) (N.shiftl (byteval s1) 8))
          (byteval s2) in
      String (encodeAt (N.land (N.shiftr val 18) 63))
        (String (encodeAt (N.land (N.shiftr val 12) 63))
           (String (encodeAt (N.land (N.shiftr val 6) 63))
              (String (encodeAt (N.land val 63))
                 (RawURLEncoding_EncodeToString rest))))
  end.


Fixpoint allChars (f : ascii -> bool) (s : string) : bool :=
  match s with
  | EmptyString => true
  | String c s' => f c && allChars f s'
  end.

(** ** Errors and the packages outside this file *)

(** Modelled from the spec: [goa.Error], an interface of package goa that
    encoding_http.go only uses. The spec describes a classified error as one
    that carries a declared status code and a message. *)
Record goa_Error : Type := {
  Status : Z;
  Message : string;
}.

(** A value of Go's [error] interface as [Encode] tells them apart: the nil
    interface, a [goa.Error], or any other error with the text of its
    [Error()] method. *)
Inductive error : Type :=
  | nil_error
  | classified (t : goa_Error)
  | unclassified (msg : string).

(** [handled.Error()]: the message of the error; [None] when the call panics,
    as it does on the nil interface. *)
Definition error_Error (handled : error) : option string :=
  match handled with
  | nil_error => None
  | classified t => Some (Message t)
  | unclassified msg => Some msg
  end.

(** Modelled from the spec: [rest.ErrorResponse], the structured body of an
    error response, a status and a message. *)
Record ErrorResponse : Type := {
  er_status : Z;
  er_message : string;
}.

(** The two functions of package [rest] that [Encode] calls; package [rest] is
    not among the files of the example. *)
Class RestPackage : Type := {
  HTTPStatus : Z -> Z;
  NewErrorResponse : goa_Error -> ErrorResponse;
}.

(** What the three standard encoders make of one value: its bytes, or the
    error the encoding ends in. *)
Class Codecs : Type := {
  json_Marshal : ErrorResponse -> string + string;
  gob_Marshal : ErrorResponse -> string + string;
  xml_Marshal : ErrorResponse -> string + string;
}.

Definition newline : string := String "010" EmptyString.

(** How a call of [Encode] ends. *)
Inductive Outcome : Type :=
  | Returns (σ : World)
  | Panics (σ : World).

Definition http_StatusInternalServerError : Z := 500.

Section ErrorEncoder.

Context {U : UnicodeTables} {P : RestPackage} {C : Codecs}.

(** The writer an encoder was made for. *)
Definition encoderWriter (enc : Encoder) : WriterRef :=
  match enc with
  | json_NewEncoder w => w
  | gob_NewEncoder w => w
  | xml_NewEncoder w => w
  end.

(** The bytes a fresh encoder writes for one value, or the error the encoding
    ends in. [json.Encoder.Encode] ends each value with a newline. *)
Definition encoded (enc : Encoder) (v : ErrorResponse) : string + string :=
  match enc with
  | json_NewEncoder _ =>
      match json_Marshal v with
      | inl b => inl (b +:+ newline)
      | inr err => inr err
      end
  | gob_NewEncoder _ => gob_Marshal v
  | xml_NewEncoder _ => xml_Marshal v
  end.

(** [enc.Encode(v)]: an encoding error is returned before anything is written,
    the error of the write after. *)
Definition Encoder_Encode (enc : Encoder) (v : ErrorResponse) (σ : World)
    : World * option string :=
  match encoded enc v with
  | inl b => writeTo (encoderWriter enc) b σ
  | inr err => (σ, Some err)
  end.

Record errorEncoder : Type := {
  ee_w : WriterRef;
  ee_r : Request;
  ee_encoder : Encoder;
}.

(** The [logger] argument is never read. *)
Definition NewErrorHTTPEncoder {Logger : Type} (w : WriterRef) (r : Request)
    (logger : Logger) : errorEncoder :=
  {| ee_w := w; ee_r := r; ee_encoder := NewHTTPEncoder w r |}.

Definition Encode (e : errorEncoder) (handled : error) (σ : World) : Outcome :=
  match handled with
  | classified t =>
      let σ := updWriter (ee_w e)
                 (rw_Header_Set "Content-Type" (ResponseContentType (ee_r e))) σ in
      let σ := updWriter (ee_w e) (rw_WriteHeader (HTTPStatus (Status t))) σ in
      let '(σ, err) := Encoder_Encode (ee_encoder e) (NewErrorResponse t) σ in
      match err with
      | Some err => Returns (log (logger_Error ["encoding"; err]) σ)
      | None => Returns σ
      end
  | _ =>
      let '(b, σ) := rand_Read 6 σ in
      let id := RawURLEncoding_EncodeToString b +:+ ": " in
      let σ := updWriter (ee_w e) (rw_Header_Set "Content-Type" "text/plain") σ in
      let σ := updWriter (ee_w e) (rw_WriteHeader http_StatusInternalServerError) σ in
      match error_Error handled with
      | Some msg =>
          let '(σ, _) := writeTo (ee_w e) (id +:+ msg) σ in
          Returns (log (logger_Error ["id"; id; "error"; msg]) σ)
      | None => Panics σ
      end
  end.



End ErrorEncoder.

(** ** Instances *)

(** Tables that leave every string as it is. A header of ASCII bytes never
    reaches them. *)
Definition identityTables : UnicodeTables :=
  {| unicodeToLower := fun s => s |}.

(** Modelled from the spec: [rest.HTTPStatus] and [rest.NewErrorResponse], which
    package [rest] defines outside this file. The spec has [Encode] write the
    HTTP status from the declared status of the error, and encode an object
    with the status and the message of the error. *)
Definition rest_spec : RestPackage :=
  {| HTTPStatus := fun status => status;
     NewErrorResponse := fun t =>
       {| er_status := Status t; er_message := Message t |} |}.

(** [strconv.Itoa] *)
Definition itoa (z : Z) : string :=
  NilEmpty.string_of_int (Z.to_int z).

(** The JSON text of an error response whose message needs no escaping, in the
    layout of [encoding/json]: no spaces, the fields in order. *)
Definition plainJSON (v : ErrorResponse) : string :=
  "{" +:+ String dquote "status" +:+ String dquote ":" +:+ itoa (er_status v)
  +:+ "," +:+ String dquote "message" +:+ String dquote ":"
  +:+ String dquote (er_message v) +:+ String dquote "}".

(** Codecs for the examples: JSON as above, the other two refusing. *)
Definition exampleCodecs : Codecs :=
  {| json_Marshal := fun v => inl (plainJSON v);
     gob_Marshal := fun _ => inr "gob: not modelled";
     xml_Marshal := fun _ => inr "xml: not modelled" |}.

(** Codecs whose encoders all fail. *)
Definition failingCodecs : Codecs :=
  {| json_Marshal := fun _ => inr "json: unsupported value";
     gob_Marshal := fun _ => inr "gob: unsupported value";
     xml_Marshal := fun _ => inr "xml: unsupported value" |}.

(** ** Vocabulary of the properties *)

(** The three codecs and the media type each one is selected by. *)
Inductive Codec : Type := JSON | Gob | XML.

Definition mediaType (c : Codec) : string :=
  match c with
  | JSON => "application/json"
  | Gob => "application/gob"
  | XML => "application/xml"
  end.

Definition decoderOf (c : Codec) (body : string) : Decoder :=
  match c with
  | JSON => json_NewDecoder body
  | Gob => gob_NewDecoder body
  | XML => xml_NewDecoder body
  end.

Definition encoderOf (c : Codec) (w : WriterRef) : Encoder :=
  match c with
  | JSON => json_NewEncoder w
  | Gob => gob_NewEncoder w
  | XML => xml_NewEncoder w
  end.

Definition encoderCodec (enc : Encoder) : Codec :=
  match enc with
  | json_NewEncoder _ => JSON
  | gob_NewEncoder _ => Gob
  | xml_NewEncoder _ => XML
  end.

(** One of the three supported media types, byte for byte. *)
Definition supported (m : string) : Prop :=
  m = "application/json" \/ m = "application/gob" \/ m = "application/xml".

(** The [switch] of [NewHTTPDecoder] on its own. *)
Definition switchDecoder (contentType body : string) : Decoder :=
  if String.eqb contentType "application/json" then json_NewDecoder body
  else if String.eqb contentType "application/gob" then gob_NewDecoder body
  else if String.eqb contentType "application/xml" then xml_NewDecoder body
  else json_NewDecoder body.

(** The [switch] of [NewHTTPEncoder] on its own. *)
Definition switchEncoder (accept : string) (w : WriterRef) : Encoder :=
  if String.eqb accept "application/json" then json_NewEncoder w
  else if String.eqb accept "application/gob" then gob_NewEncoder w
  else if String.eqb accept "application/xml" then xml_NewEncoder w
  else json_NewEncoder w.

(** What the three operations make of a header value that is not empty before
    they match it: the media type [mime.ParseMediaType] returns, or the
    value itself when the parser returns an error. *)
Definition parsedMediaType {U : UnicodeTables} (h : string) : string :=
  match ParseMediaType h with
  | (mediaType, None) => mediaType
  | (_, Some _) => h
  end.

(** A request with the given [Content-Type] and [Accept] values and body. *)
Definition mkRequest (contentType accept body : string) : Request :=
  {| Header := <["Content-Type" := [contentType]]> (<["Accept" := [accept]]> ∅);
     Body := body |}.

Definition emptyWriter : ResponseWriter :=
  {| rw_header := ∅; rw_sent := None; rw_body := EmptyString; rw_failure := None |}.


Definition newWorld (w : ResponseWriter) (random : string) : World :=
  {| writers := fun _ => w; logged := []; entropy := random |}.

Definition outcomeWorld (o : Outcome) : World :=
  match o with
  | Returns σ => σ
  | Panics σ => σ
  end.

Definition returned (o : Outcome) : bool :=
  match o with
  | Returns _ => true
  | Panics _ => false
  end.

(** The status line and headers a writer has sent. *)
Definition sentStatus (w : ResponseWriter) : option Z := fst <$> rw_sent w.



(** The classified error of C5: status 404, message [not found]. *)
Definition notFound : goa_Error := {| Status := 404; Message := "not found" |}.

(** [isToken(s)] of grammar.go. *)
Definition isToken (s : string) : bool :=
  negb (String.eqb s "") && allChars isTokenChar s.

(** A parameter section as it is usually sent: each parameter after a
    semicolon and a space, its name and value around an equals sign. *)
Fixpoint renderParams (ps : list (string * string)) : string :=
  match ps with
  | [] => EmptyString
  | (name, value) :: ps' =>
      "; " +:+ name +:+ "=" +:+ value +:+ renderParams ps'
  end.

(** No token starts here: the string is empty or its first byte is no token
    character. *)
Definition tokenEnds (s : string) : bool :=
  match s with
  | EmptyString => true
  | String c _ => negb (isTokenChar c)
  end.

(** Parameters whose names and values are tokens, no name used twice in any
    mix of upper and lower case. *)
Definition wellFormedParams (ps : list (string * string)) : Prop :=
  Forall (fun p => isToken (fst p) = true /\ isToken (snd p) = true) ps
  /\ NoDup (map (fun p => asciiLower (fst p)) ps).

(** The name [key] is in neither map of the parameter loop. *)
Definition unseen (key : string) (params : gmap string string)
    (continuation : gmap string (gmap string string)) : Prop :=
  params !! key = None
  /\ forall baseName pmap,
       continuation !! baseName = Some pmap -> pmap !! key = None.

(** ** Inputs of the examples *)


Definition htmlRequest : Request :=
  {| Header := {["Content-Type" := ["text/html; charset=utf-8"]]};
     Body := "<p>" |}.

Definition jsonWithCharset : Request :=
  mkRequest "application/json; charset=utf-8" "application/json; charset=utf-8"
    "{}".

Definition xmlTwoCharsets : Request :=
  mkRequest "application/xml; charset=utf-8; charset=ascii"
    "application/xml; charset=utf-8; charset=ascii" "<a/>".

Definition xmlBare : Request :=
  mkRequest "application/xml" "application/xml" "<a/>".

Definition acceptList : Request :=
  mkRequest "application/xml, text/html" "application/xml, text/html" "<a/>".

Definition mixedCase : Request :=
  mkRequest "Application/XML" "APPLICATION/GOB" "<a/>".

Definition acceptJSON : Request :=
  mkRequest "" "application/json" "".

(** The worlds of the examples: one writer that has sent nothing, and the six
    bytes of [random] for the next read of [rand.Reader]. *)
Definition freshWorld : World := newWorld emptyWriter "random".


(** The error encoder of a request that accepts JSON, on writer 0. *)
Definition jsonErrorEncoder : errorEncoder :=
  NewErrorHTTPEncoder (U := identityTables) 0 acceptJSON tt.

(** [enc.decodeMap[c]] for a character of the alphabet: its place in it. *)
Fixpoint indexByte (s : string) (c : ascii) : N :=
  match s with
  | EmptyString => 0%N
  | String d s' => if Ascii.eqb d c then 0%N else N.succ (indexByte s' c)
  end.

Definition decodeAt (c : ascii) : N := indexByte encodeURL c.

(** Further inputs of the examples. *)
Definition xmlCharsetQ : Request :=
  mkRequest "application/xml; charset=utf-8; Q=0.9"
    "application/xml; charset=utf-8; Q=0.9" "<a/>".

Definition gobAccept : Request := mkRequest "" "application/gob" "".

Definition gobEcho : Request :=
  mkRequest "application/gob" "application/gob" "payload".

Definition jsonBadParameter : Request :=
  mkRequest "application/json; charset" "application/json; charset" "{}".

Definition browserAccept : string :=
  "text/html,application/xhtml+xml,application/xml;q=0.9,*/*;q=0.8".

Definition browserRequest : Request :=
  mkRequest browserAccept browserAccept "<a/>".

Definition tab : string := String "009" EmptyString.

Definition spacedXml : Request :=
  mkRequest ("  Application/XML " +:+ tab +:+ "; charset=utf-8")
    ("  Application/XML " +:+ tab +:+ "; charset=utf-8") "<a/>".

(** A writer that has answered 200 and begun its body. *)
Definition startedWriter : ResponseWriter :=
  {| rw_header := {["Content-Type" := ["text/html"]]};
     rw_sent := Some (200%Z, {["Content-Type" := ["text/html"]]});
     rw_body := "<html>";
     rw_failure := None |}.

Definition startedWorld : World := newWorld startedWriter "random".

(** Two writers: writer 0 has sent nothing, every other one has begun. *)
Definition twoWriters : World :=
  {| writers := fun w => if Nat.eqb w 0 then emptyWriter else startedWriter;
     logged := [];
     entropy := "random" |}.

(** * Properties *)

(** ** Selection *)

Section SelectionProperties.

Context {U : UnicodeTables}.

Lemma supported_eqb (m : string) :
  supported m <->
  String.eqb m "application/json" || String.eqb m "application/gob"
  || String.eqb m "application/xml" = true.
Proof.
  unfold supported.
  rewrite !orb_true_iff, !String.eqb_eq. tauto.
Qed.

Lemma supported_mediaType (c : Codec) : supported (mediaType c).
Proof. destruct c; unfold supported; simpl; auto. Qed.

Lemma supported_inv (m : string) :
  supported m -> exists c, m = mediaType c.
Proof.
  intros [-> | [-> | ->]]; [exists JSON | exists Gob | exists XML]; reflexivity.
Qed.

Lemma switchDecoder_mediaType (c : Codec) (body : string) :
  switchDecoder (mediaType c) body = decoderOf c body.
Proof. destruct c; reflexivity. Qed.

Lemma switchEncoder_mediaType (c : Codec) (w : WriterRef) :
  switchEncoder (mediaType c) w = encoderOf c w.
Proof. destruct c; reflexivity. Qed.

Lemma switchDecoder_unsupported (m body : string) :
  ~ supported m -> switchDecoder m body = json_NewDecoder body.
Proof.
  intros Hm. unfold switchDecoder.
  destruct (String.eqb_spec m "application/json"); [reflexivity |].
  destruct (String.eqb_spec m "application/gob") as [-> | _].
  { exfalso. apply Hm. right. left. reflexivity. }
  destruct (String.eqb_spec m "application/xml") as [-> | _]; [| reflexivity].
  exfalso. apply Hm. right. right. reflexivity.
Qed.

Lemma switchEncoder_unsupported (m : string) (w : WriterRef) :
  ~ supported m -> switchEncoder m w = json_NewEncoder w.
Proof.
  intros Hm. unfold switchEncoder.
  destruct (String.eqb_spec m "application/json"); [reflexivity |].
  destruct (String.eqb_spec m "application/gob") as [-> | _].
  { exfalso. apply Hm. right. left. reflexivity. }
  destruct (String.eqb_spec m "application/xml") as [-> | _]; [| reflexivity].
  exfalso. apply Hm. right. right. reflexivity.
Qed.

(** The three operations, each as its [switch] applied to the media type it
    has settled on. *)
Lemma NewHTTPDecoder_unfold (r : Request) :
  NewHTTPDecoder r =
  let h := Header_Get (Header r) "Content-Type" in
  switchDecoder (if String.eqb h "" then "application/json" else parsedMediaType h)
    (Body r).
Proof.
  unfold NewHTTPDecoder, switchDecoder, parsedMediaType. simpl.
  destruct (String.eqb _ ""); [reflexivity |].
  destruct (ParseMediaType _) as [m [e|]]; reflexivity.
Qed.

Lemma NewHTTPEncoder_unfold (w : WriterRef) (r : Request) :
  NewHTTPEncoder w r =
  let h := Header_Get (Header r) "Accept" in
  switchEncoder (if String.eqb h "" then "application/json" else parsedMediaType h) w.
Proof.
  unfold NewHTTPEncoder, switchEncoder, parsedMediaType. simpl.
  destruct (String.eqb _ ""); [reflexivity |].
  destruct (ParseMediaType _) as [m [e|]]; reflexivity.
Qed.

Lemma ResponseContentType_unfold (r : Request) :
  ResponseContentType r =
  let h := Header_Get (Header r) "Accept" in
  if String.eqb h "" then "application/json"
  else
    let m := parsedMediaType h in
    if String.eqb m "application/json" || String.eqb m "application/gob"
       || String.eqb m "application/xml"
    then m else "application/json".
Proof.
  unfold ResponseContentType, parsedMediaType. simpl.
  destruct (String.eqb _ ""); [reflexivity |].
  destruct (ParseMediaType _) as [m [e|]]; reflexivity.
Qed.

(** The parser rejects the empty string, so an empty header value is its own
    media type. *)
Lemma parsedMediaType_empty : parsedMediaType "" = "".
Proof. reflexivity. Qed.

(** The parser returns each supported media type as it is. *)
Lemma ParseMediaType_mediaType (c : Codec) :
  ParseMediaType (mediaType c) = (mediaType c, None).
Proof. destruct c; vm_compute; reflexivity. Qed.

Lemma parsedMediaType_mediaType (c : Codec) :
  parsedMediaType (mediaType c) = mediaType c.
Proof. unfold parsedMediaType. rewrite ParseMediaType_mediaType. reflexivity. Qed.

Lemma mediaType_nonempty (c : Codec) : String.eqb (mediaType c) "" = false.
Proof. destruct c; reflexivity. Qed.


(** C2. A header value whose media type, once the parameters are stripped, is
    none of the three supported ones selects the JSON decoder, respectively
    the JSON encoder; so does an empty or absent header. Selection is a
    total function: it has no error result. *)
Theorem unsupported_types_select_json (r : Request) (w : WriterRef) :
  (~ supported (parsedMediaType (Header_Get (Header r) "Content-Type")) ->
   NewHTTPDecoder r = json_NewDecoder (Body r))
  /\ (~ supported (parsedMediaType (Header_Get (Header r) "Accept")) ->
      NewHTTPEncoder w r = json_NewEncoder w)
  /\ (Header r !! "Content-Type" = None ->
      NewHTTPDecoder r = json_NewDecoder (Body r))
  /\ (Header r !! "Accept" = None ->
      NewHTTPEncoder w r = json_NewEncoder w).
Proof.
  rewrite NewHTTPDecoder_unfold, NewHTTPEncoder_unfold. simpl.
  repeat split.
  - intros Hm. destruct (String.eqb _ ""); [reflexivity |].
    apply switchDecoder_unsupported, Hm.
  - intros Hm. destruct (String.eqb _ ""); [reflexivity |].
    apply switchEncoder_unsupported, Hm.
  - intros Hnone. unfold Header_Get. rewrite Hnone. reflexivity.
  - intros Hnone. unfold Header_Get. rewrite Hnone. reflexivity.
Qed.

(** C3. [ResponseContentType] returns the media type parsed from [Accept]
    exactly when that media type is one of the three supported ones; in
    every other case, an absent [Accept] among them, it returns
    [application/json]. *)
Theorem ResponseContentType_spec (r : Request) :
  let m := parsedMediaType (Header_Get (Header r) "Accept") in
  (ResponseContentType r = m <-> supported m)
  /\ (~ supported m -> ResponseContentType r = "application/json")
  /\ (Header r !! "Accept" = None -> ResponseContentType r = "application/json").
Proof.
  rewrite ResponseContentType_unfold. simpl.
  destruct (String.eqb_spec (Header_Get (Header r) "Accept") "") as [He | Hne].
  - rewrite He, parsedMediaType_empty. repeat split; try reflexivity.
    + intros H. discriminate H.
    + intros [H | [H | H]]; discriminate H.
  - set (m := parsedMediaType _).
    destruct (String.eqb m "application/json" || String.eqb m "application/gob"
              || String.eqb m "application/xml") eqn:Hs.
    + apply supported_eqb in Hs. repeat split; auto.
      * intros Hn. contradiction.
      * intros Hnone. exfalso. apply Hne. unfold Header_Get.
        rewrite Hnone. reflexivity.
    + assert (Hn : ~ supported m).
      { intros H. apply supported_eqb in H. congruence. }
      repeat split; auto.
      * intros H. exfalso. apply Hn. rewrite <- H. left. reflexivity.
      * intros H. contradiction.
Qed.

(** C10. The encoder [NewHTTPEncoder] selects from [Accept] is the encoder of
    the codec whose media type [ResponseContentType] returns for the same
    request. *)
Theorem encoder_agrees_with_ResponseContentType (r : Request) (w : WriterRef) :
  ResponseContentType r = mediaType (encoderCodec (NewHTTPEncoder w r))
  /\ NewHTTPEncoder w r = switchEncoder (ResponseContentType r) w.
Proof.
  rewrite ResponseContentType_unfold, NewHTTPEncoder_unfold. simpl.
  destruct (String.eqb _ ""); [split; reflexivity |].
  set (m := parsedMediaType _).
  destruct (String.eqb m "application/json" || String.eqb m "application/gob"
            || String.eqb m "application/xml") eqn:Hs.
  - apply supported_eqb in Hs. destruct (supported_inv _ Hs) as [c ->].
    rewrite switchEncoder_mediaType. destruct c; split; reflexivity.
  - assert (Hn : ~ supported m).
    { intros H. apply supported_eqb in H. congruence. }
    rewrite (switchEncoder_unsupported _ _ Hn). split; reflexivity.
Qed.

End SelectionProperties.

(** ** The parser *)

Section ParserProperties.

Context {U : UnicodeTables}.

Lemma append_nil (s : string) : "" +:+ s = s.
Proof. reflexivity. Qed.

Lemma append_cons (c : ascii) (s t : string) :
  String c s +:+ t = String c (s +:+ t).
Proof. reflexivity. Qed.

Lemma append_empty (s : string) : s +:+ "" = s.
Proof.
  induction s as [| c s IH]; [reflexivity |].
  rewrite append_cons, IH. reflexivity.
Qed.

Lemma sdrop_length (s : string) : sdrop (String.length s) s = "".
Proof. induction s as [| c s IH]; simpl; auto. Qed.

Lemma cut_not_found (sep : ascii) (s before : string) :
  cut sep s = (before, false) -> before = s.
Proof.
  revert before. induction s as [| c s IH]; simpl; intros before H.
  - congruence.
  - destruct (Ascii.eqb c sep); [discriminate |].
    destruct (cut sep s) as [b f]. injection H as <- ->.
    f_equal. apply IH. reflexivity.
Qed.

Lemma cut_app (base tail : string) :
  cut ";" base = (base, false) -> hasPrefixByte ";" tail = true ->
  cut ";" (base +:+ tail) = (base, true).
Proof.
  intros Hbase Htail. induction base as [| c base IH].
  - rewrite append_nil. destruct tail as [| d tail]; [discriminate Htail |].
    simpl in *. rewrite Htail. reflexivity.
  - rewrite append_cons. simpl in *.
    destruct (Ascii.eqb c ";"); [discriminate Hbase |].
    destruct (cut ";" base) as [b f]. injection Hbase as Hb ->.
    rewrite IH by (rewrite Hb; reflexivity). reflexivity.
Qed.

Lemma lowerByte_ascii (c : ascii) :
  (byteval (lowerByte c) <? 128)%N = (byteval c <? 128)%N.
Proof.
  destruct c as [[] [] [] [] [] [] [] []]; vm_compute; reflexivity.
Qed.

Lemma lowerByte_semicolon (c : ascii) :
  Ascii.eqb (lowerByte c) ";" = Ascii.eqb c ";".
Proof.
  destruct c as [[] [] [] [] [] [] [] []]; vm_compute; reflexivity.
Qed.

Lemma isASCII_asciiLower (s : string) : isASCII (asciiLower s) = isASCII s.
Proof.
  induction s as [| c s IH]; simpl; [reflexivity |].
  rewrite lowerByte_ascii, IH. reflexivity.
Qed.

Lemma cut_asciiLower (s : string) :
  cut ";" (asciiLower s) = (asciiLower (fst (cut ";" s)), snd (cut ";" s)).
Proof.
  induction s as [| c s IH]; simpl; [reflexivity |].
  rewrite lowerByte_semicolon.
  destruct (Ascii.eqb c ";"); [reflexivity |].
  rewrite IH. destruct (cut ";" s) as [b f]. reflexivity.
Qed.

(** A string whose ASCII lower case is a supported media type is ASCII and
    holds no semicolon. *)
Lemma any_case_base (base : string) (c : Codec) :
  asciiLower base = mediaType c ->
  isASCII base = true /\ cut ";" base = (base, false).
Proof.
  intros Hlow. split.
  - rewrite <- isASCII_asciiLower, Hlow. destruct c; reflexivity.
  - pose proof (cut_asciiLower base) as Hc. rewrite Hlow in Hc.
    destruct (cut ";" base) as [b f] eqn:Hb. simpl in Hc.
    assert (f = false) as -> by (destruct c; vm_compute in Hc; congruence).
    rewrite (cut_not_found _ _ _ Hb). reflexivity.
Qed.

(** A value without parameters whose ASCII lower case is a supported media
    type parses to that media type. *)
Lemma ParseMediaType_any_case (h : string) (c : Codec) :
  asciiLower h = mediaType c -> ParseMediaType h = (mediaType c, None).
Proof.
  intros Hlow. destruct (any_case_base h c Hlow) as [Hascii Hcut].
  unfold ParseMediaType. rewrite Hcut. unfold ToLower.
  rewrite Hascii, Hlow, sdrop_length.
  destruct c; vm_compute; reflexivity.
Qed.

(** The parameter loop ends without an error only with the media type it was
    given. *)
Lemma paramLoop_mediatype (fuel : nat) (mediatype v m : string)
    (params : gmap string string)
    (continuation : gmap string (gmap string string)) :
  paramLoop fuel mediatype v params continuation = (m, None) -> m = mediatype.
Proof.
  revert v params continuation.
  induction fuel as [| fuel IH]; simpl; intros v params continuation H.
  - congruence.
  - unfold paramRound in H. repeat case_match; simplify_eq; eauto.
Qed.

(** When the parser accepts a supported media type followed by a parameter
    section, what it returns is that media type. *)
Lemma ParseMediaType_parameters (c : Codec) (rest m : string) :
  ParseMediaType (mediaType c +:+ ";" +:+ rest) = (m, None) ->
  m = mediaType c.
Proof.
  unfold ParseMediaType.
  assert (Hcut : cut ";" (mediaType c +:+ ";" +:+ rest) = (mediaType c, true))
    by (destruct c; reflexivity).
  rewrite Hcut.
  assert (Hm : TrimSpace (ToLower (mediaType c)) = mediaType c)
    by (destruct c; vm_compute; reflexivity).
  rewrite Hm.
  assert (Hchk : checkMediaTypeDisposition (mediaType c) = None)
    by (destruct c; vm_compute; reflexivity).
  rewrite Hchk. apply paramLoop_mediatype.
Qed.

(** What the parser accepts it returns without its parameters, in lower case
    and trimmed. *)
Lemma ParseMediaType_accepted (h m : string) :
  ParseMediaType h = (m, None) ->
  m = TrimSpace (ToLower (fst (cut ";" h))).
Proof.
  unfold ParseMediaType. destruct (cut ";" h) as [base found]. simpl.
  destruct (checkMediaTypeDisposition _); [discriminate |].
  apply paramLoop_mediatype.
Qed.

(** A value the parser rejects is none of the supported media types. *)
Lemma rejected_not_supported (h : string) :
  snd (ParseMediaType h) <> None -> ~ supported h.
Proof.
  intros Herr Hs. destruct (supported_inv _ Hs) as [c ->].
  rewrite ParseMediaType_mediaType in Herr. apply Herr. reflexivity.
Qed.

Lemma parsedMediaType_rejected (h : string) :
  snd (ParseMediaType h) <> None -> parsedMediaType h = h.
Proof.
  unfold parsedMediaType. destruct (ParseMediaType h) as [m [e |]]; simpl.
  - reflexivity.
  - intros H. contradiction.
Qed.

(** C8. When the parser rejects a header value that is not empty, the three
    operations match the value as it was sent; a rejected value is none of
    the supported media types, so the JSON codec is selected and
    [ResponseContentType] is [application/json]. *)
Theorem rejected_header_is_matched_raw (h : string) (r : Request) (w : WriterRef) :
  h <> "" ->
  snd (ParseMediaType h) <> None ->
  (Header_Get (Header r) "Content-Type" = h ->
   NewHTTPDecoder r = switchDecoder h (Body r)
   /\ NewHTTPDecoder r = json_NewDecoder (Body r))
  /\ (Header_Get (Header r) "Accept" = h ->
      NewHTTPEncoder w r = switchEncoder h w
      /\ NewHTTPEncoder w r = json_NewEncoder w
      /\ ResponseContentType r = "application/json").
Proof.
  intros Hne Herr.
  pose proof (rejected_not_supported h Herr) as Hns.
  pose proof (parsedMediaType_rejected h Herr) as Hraw.
  apply String.eqb_neq in Hne.
  split; intros Hh.
  - rewrite NewHTTPDecoder_unfold. simpl. rewrite Hh, Hne, Hraw.
    split; [reflexivity | apply switchDecoder_unsupported, Hns].
  - rewrite NewHTTPEncoder_unfold, ResponseContentType_unfold. simpl.
    rewrite Hh, Hne, Hraw.
    split; [reflexivity |].
    split; [apply switchEncoder_unsupported, Hns |].
    destruct (String.eqb h "application/json" || String.eqb h "application/gob"
              || String.eqb h "application/xml") eqn:Hs; [| reflexivity].
    apply supported_eqb in Hs. contradiction.
Qed.

(** The same with a parameter section the parser accepts. *)
Lemma ParseMediaType_any_case_parameters (base tail m : string) (c : Codec) :
  asciiLower base = mediaType c ->
  hasPrefixByte ";" tail = true ->
  ParseMediaType (base +:+ tail) = (m, None) ->
  m = mediaType c.
Proof.
  intros Hlow Htail Hparse. destruct (any_case_base base c Hlow) as [Hascii Hcut].
  apply ParseMediaType_accepted in Hparse.
  rewrite (cut_app base tail Hcut Htail) in Hparse. simpl in Hparse.
  unfold ToLower in Hparse. rewrite Hascii, Hlow in Hparse.
  rewrite Hparse. destruct c; vm_compute; reflexivity.
Qed.

(** C9. A header value that spells a supported media type in any mix of upper
    and lower case, alone or followed by a parameter section the parser
    accepts, selects the codec of that media type, and [ResponseContentType]
    returns the media type in lower case. *)
Theorem media_type_case_is_ignored (base tail : string) (c : Codec)
    (r : Request) (w : WriterRef) :
  asciiLower base = mediaType c ->
  tail = ""
  \/ (hasPrefixByte ";" tail = true
      /\ snd (ParseMediaType (base +:+ tail)) = None) ->
  let h := base +:+ tail in
  (Header_Get (Header r) "Content-Type" = h ->
   NewHTTPDecoder r = decoderOf c (Body r))
  /\ (Header_Get (Header r) "Accept" = h ->
      NewHTTPEncoder w r = encoderOf c w
      /\ ResponseContentType r = mediaType c).
Proof.
  intros Hlow Htail h.
  assert (Hm : parsedMediaType h = mediaType c).
  { unfold parsedMediaType, h. destruct Htail as [-> | [Hsemi Hok]].
    - rewrite append_empty, (ParseMediaType_any_case base c Hlow). reflexivity.
    - destruct (ParseMediaType (base +:+ tail)) as [m e] eqn:Hp.
      simpl in Hok. subst e.
      apply (ParseMediaType_any_case_parameters base tail m c Hlow Hsemi Hp). }
  assert (Hne : String.eqb h "" = false).
  { unfold h. destruct base; [destruct c; discriminate Hlow | reflexivity]. }
  split; intros Hh.
  - rewrite NewHTTPDecoder_unfold. simpl. rewrite Hh, Hne, Hm.
    apply switchDecoder_mediaType.
  - rewrite NewHTTPEncoder_unfold, ResponseContentType_unfold. simpl.
    rewrite Hh, Hne, Hm. split; [apply switchEncoder_mediaType |].
    destruct c; reflexivity.
Qed.

(** C4 as amended. When the parser accepts a header value made of a supported
    media type, a semicolon and a parameter section, the three operations
    do with it what they do with the media type alone. *)
Theorem accepted_parameters_are_stripped (c : Codec) (rest : string)
    (r : Request) (w : WriterRef) :
  let h := mediaType c +:+ ";" +:+ rest in
  snd (ParseMediaType h) = None ->
  (Header_Get (Header r) "Content-Type" = h ->
   NewHTTPDecoder r = decoderOf c (Body r))
  /\ (Header_Get (Header r) "Accept" = h ->
      NewHTTPEncoder w r = encoderOf c w
      /\ ResponseContentType r = mediaType c).
Proof.
  intros h Hok.
  assert (Hm : parsedMediaType h = mediaType c).
  { unfold parsedMediaType. destruct (ParseMediaType h) as [m e] eqn:Hp.
    simpl in Hok. subst e. apply (ParseMediaType_parameters c rest m Hp). }
  assert (Hne : String.eqb h "" = false) by (destruct c; reflexivity).
  split; intros Hh.
  - rewrite NewHTTPDecoder_unfold. simpl. rewrite Hh, Hne, Hm.
    apply switchDecoder_mediaType.
  - rewrite NewHTTPEncoder_unfold, ResponseContentType_unfold. simpl.
    rewrite Hh, Hne, Hm. split; [apply switchEncoder_mediaType |].
    destruct c; reflexivity.
Qed.

End ParserProperties.

(** ** The parameter loop terminates *)

Section LoopTermination.

Context {U : UnicodeTables}.

Lemma trimLeftSpace_length_le (s : string) :
  String.length (trimLeftSpace s) <= String.length s.
Proof.
  remember (String.length s) as n eqn:Hn.
  assert (Hle : String.length s <= n) by lia. rewrite Hn. clear Hn.
  revert s Hle.
  induction n as [| n IH]; intros s Hle.
  - destruct s; simpl in *; lia.
  - destruct s as [| c [| d [| e s]]]; simpl in *; try lia.
    + destruct (isASCIISpace c); simpl; lia.
    + destruct (isASCIISpace c).
      * destruct (isASCIISpace d); simpl; lia.
      * destruct (isSpace2 c d); simpl; lia.
    + destruct (isASCIISpace c).
      * specialize (IH (String d (String e s))). simpl in IH.
        assert (S (S (String.length s)) <= n) by lia.
        specialize (IH H). lia.
      * destruct (isSpace2 c d).
        -- specialize (IH (String e s)). simpl in IH.
           assert (S (String.length s) <= n) by lia.
           specialize (IH H). lia.
        -- destruct (isSpace3 c d e).
           ++ specialize (IH s). assert (String.length s <= n) by lia.
              specialize (IH H). lia.
           ++ simpl. lia.
Qed.

Lemma sdrop_length_le (n : nat) (s : string) :
  String.length (sdrop n s) <= String.length s.
Proof.
  revert s. induction n as [| n IH]; intros [| c s]; simpl; try lia.
  specialize (IH s). lia.
Qed.

Lemma consumeToken_length (v token rest : string) :
  consumeToken v = (token, rest) ->
  String.length rest <= String.length v
  /\ (token <> "" -> String.length rest < String.length v).
Proof.
  unfold consumeToken. intros H.
  destruct (IndexFunc isNotTokenChar v) as [[| n] |] eqn:Hi;
    injection H as <- <-.
  - split; [lia | congruence].
  - destruct v as [| c v]; [discriminate Hi |]. simpl.
    pose proof (sdrop_length_le n v). split; lia.
  - simpl. split; [lia |]. destruct v; simpl; [congruence | lia].
Qed.

Lemma quotedString_cons (v s1 buffer : string) (r : ascii) :
  quotedString v (String r s1) buffer =
  if Ascii.eqb r dquote then (buffer, s1)
  else
    match s1 with
    | String r1 s2 =>
        if Ascii.eqb r backslash && isTSpecial r1
        then quotedString v s2 (buffer +:+ String r1 EmptyString)
        else if isCRLF r then (EmptyString, v)
        else quotedString v s1 (buffer +:+ String r EmptyString)
    | EmptyString =>
        if isCRLF r then (EmptyString, v)
        else quotedString v s1 (buffer +:+ String r EmptyString)
    end.
Proof. destruct s1; reflexivity. Qed.

Lemma quotedString_length (v s buffer value rest : string) :
  quotedString v s buffer = (value, rest) ->
  (value = "" /\ rest = v) \/ String.length rest < String.length s.
Proof.
  remember (String.length s) as n eqn:Hn.
  assert (Hle : String.length s <= n) by lia. rewrite Hn. clear Hn.
  revert s buffer Hle.
  induction n as [| n IH]; intros s buffer Hle H.
  - destruct s; simpl in *; [| lia]. injection H as <- <-. auto.
  - destruct s as [| r s1]; [injection H as <- <-; auto |].
    rewrite quotedString_cons in H. simpl in Hle.
    destruct (Ascii.eqb r dquote).
    { injection H as <- <-. simpl. right. lia. }
    assert (Hrec : forall buffer',
      quotedString v s1 buffer' = (value, rest) ->
      (value = "" /\ rest = v) \/ String.length rest < String.length (String r s1)).
    { intros buffer' H'. apply IH in H'; [| lia].
      destruct H' as [H' | H']; [auto | right; simpl; lia]. }
    destruct s1 as [| r1 s2].
    + destruct (isCRLF r); [injection H as <- <-; auto | eauto].
    + destruct (Ascii.eqb r backslash && isTSpecial r1).
      * apply IH in H; [| simpl in Hle; lia].
        destruct H as [H | H]; [auto | right; simpl; lia].
      * destruct (isCRLF r); [injection H as <- <-; auto | eauto].
Qed.

Lemma consumeValue_length (v value rest : string) :
  consumeValue v = (value, rest) ->
  (value = "" /\ rest = v) \/ String.length rest < String.length v.
Proof.
  unfold consumeValue. destruct v as [| c v1].
  - intros H. injection H as <- <-. auto.
  - destruct (negb (Ascii.eqb c dquote)).
    + intros H. destruct (consumeToken_length _ _ _ H) as [Hle Hlt].
      destruct (String.eqb_spec value "") as [-> | Hne].
      * unfold consumeToken in H.
        destruct (IndexFunc isNotTokenChar (String c v1)) as [[| n] |];
          [injection H as <-; auto | | discriminate H].
        injection H as H _. simpl in H. discriminate H.
      * right. auto.
    + intros H. apply quotedString_length in H.
      destruct H as [H | H]; [auto | right; simpl; lia].
Qed.

(** A parameter that was consumed leaves a shorter string. *)
Lemma consumeMediaParam_length (v param value rest : string) :
  consumeMediaParam v = (param, value, rest) ->
  param <> "" -> String.length rest < String.length v.
Proof.
  unfold consumeMediaParam. intros H Hne.
  pose proof (trimLeftSpace_length_le v) as H1.
  destruct (negb (hasPrefixByte ";" (trimLeftSpace v)));
    [injection H as <- _ _; congruence |].
  pose proof (sdrop_length_le 1 (trimLeftSpace v)) as H2.
  pose proof (trimLeftSpace_length_le (sdrop 1 (trimLeftSpace v))) as H3.
  destruct (consumeToken _) as [p rest1] eqn:Ht.
  apply consumeToken_length in Ht. destruct Ht as [H4 _].
  destruct (String.eqb (ToLower p) ""); [injection H as <- _ _; congruence |].
  pose proof (trimLeftSpace_length_le rest1) as H5.
  destruct (negb (hasPrefixByte "=" (trimLeftSpace rest1)));
    [injection H as <- _ _; congruence |].
  pose proof (sdrop_length_le 1 (trimLeftSpace rest1)) as H6.
  pose proof (trimLeftSpace_length_le (sdrop 1 (trimLeftSpace rest1))) as H7.
  destruct (consumeValue _) as [val rest2] eqn:Hv.
  apply consumeValue_length in Hv.
  destruct (String.eqb_spec val "") as [Hval | Hval];
    destruct (String.eqb_spec rest2
                (trimLeftSpace (sdrop 1 (trimLeftSpace rest1)))) as [Hr | Hr];
    cbn [andb] in H.
  - injection H as <- _ _. congruence.
  - injection H as _ _ <-. destruct Hv as [[_ Hv] | Hv]; [contradiction | lia].
  - injection H as _ _ <-. destruct Hv as [[Hv _] | Hv]; [contradiction | lia].
  - injection H as _ _ <-. destruct Hv as [[Hv _] | Hv]; [contradiction | lia].
Qed.

(** A round that goes on goes on with a shorter string. *)
Lemma paramRound_shortens (mediatype v v' : string)
    (params params' : gmap string string)
    (continuation continuation' : gmap string (gmap string string)) :
  paramRound mediatype v params continuation
    = Continue v' params' continuation' ->
  String.length v' < String.length v.
Proof.
  unfold paramRound. intros H.
  destruct (String.eqb v ""); [discriminate H |].
  destruct (String.eqb (trimLeftSpace v) ""); [discriminate H |].
  destruct (consumeMediaParam _) as [[key value] rest] eqn:Hc.
  destruct (String.eqb_spec key "") as [Hk | Hk].
  { destruct (String.eqb _ ";"); discriminate H. }
  pose proof (consumeMediaParam_length _ _ _ _ Hc Hk) as Hlt.
  pose proof (trimLeftSpace_length_le v) as Hle.
  repeat case_match; simplify_eq; lia.
Qed.

Lemma paramRound_empty (mediatype : string) (params : gmap string string)
    (continuation : gmap string (gmap string string)) :
  paramRound mediatype "" params continuation = Return mediatype None.
Proof. reflexivity. Qed.

(** Rounds beyond the length of [v] change nothing: the loop has ended by
    then. *)
Lemma paramLoop_fuel (n m : nat) (mediatype v : string)
    (params : gmap string string)
    (continuation : gmap string (gmap string string)) :
  String.length v <= n -> String.length v <= m ->
  paramLoop n mediatype v params continuation
  = paramLoop m mediatype v params continuation.
Proof.
  revert m v params continuation.
  induction n as [| n IH]; intros m v params continuation Hn Hm.
  - destruct v; [| simpl in Hn; lia]. destruct m; reflexivity.
  - destruct m as [| m].
    + destruct v; [| simpl in Hm; lia]. reflexivity.
    + simpl.
      destruct (paramRound mediatype v params continuation)
        as [mt err | v' params' continuation'] eqn:Hr; [reflexivity |].
      apply paramRound_shortens in Hr. apply IH; lia.
Qed.

(** The loop as Go runs it: one round, then the loop again on what is left. *)
Lemma paramLoop_unroll (mediatype v : string) (params : gmap string string)
    (continuation : gmap string (gmap string string)) :
  paramLoop (String.length v) mediatype v params continuation =
  match paramRound mediatype v params continuation with
  | Return mediatype err => (mediatype, err)
  | Continue v' params' continuation' =>
      paramLoop (String.length v') mediatype v' params' continuation'
  end.
Proof.
  rewrite (paramLoop_fuel _ (S (String.length v))) by lia. simpl.
  destruct (paramRound mediatype v params continuation)
    as [mt err | v' params' continuation'] eqn:Hr; [reflexivity |].
  apply paramRound_shortens in Hr. apply paramLoop_fuel; lia.
Qed.

End LoopTermination.

(** ** The case tables are consulted for the media type only *)

Section CaseTables.

Lemma IndexFunc_prefix (f : ascii -> bool) (s : string) :
  match IndexFunc f s with
  | Some n => allChars (fun c => negb (f c)) (stake n s) = true
  | None => allChars (fun c => negb (f c)) s = true
  end.
Proof.
  induction s as [| c s IH]; simpl; [reflexivity |].
  destruct (f c) eqn:Hc; [reflexivity |]. simpl.
  destruct (IndexFunc f s) as [n |]; simpl; rewrite ?Hc; exact IH.
Qed.

Lemma allChars_ext (f g : ascii -> bool) (s : string) :
  (forall c, f c = g c) -> allChars f s = allChars g s.
Proof.
  intros Hfg. induction s as [| c s IH]; simpl; [reflexivity |].
  rewrite Hfg, IH. reflexivity.
Qed.

(** What [consumeToken] returns as the token is made of token characters. *)
Lemma consumeToken_token (v token rest : string) :
  consumeToken v = (token, rest) -> allChars isTokenChar token = true.
Proof.
  unfold consumeToken. intros H.
  pose proof (IndexFunc_prefix isNotTokenChar v) as Hp.
  assert (Hext : forall s, allChars (fun c => negb (isNotTokenChar c)) s
                           = allChars isTokenChar s).
  { intros s. apply allChars_ext. intros c. unfold isNotTokenChar.
    apply negb_involutive. }
  destruct (IndexFunc isNotTokenChar v) as [[| n] |]; injection H as <- _;
    [reflexivity | |]; rewrite <- Hext; exact Hp.
Qed.

Lemma allChars_token_ascii (k : string) :
  allChars isTokenChar k = true -> isASCII k = true.
Proof.
  induction k as [| c k IH]; simpl; [reflexivity |].
  intros H. apply andb_true_iff in H. destruct H as [Hc Hk].
  rewrite (IH Hk), andb_true_r.
  unfold isTokenChar in Hc. apply andb_true_iff in Hc. destruct Hc as [Hc _].
  apply andb_true_iff in Hc. destruct Hc as [_ Hc].
  apply N.ltb_lt in Hc. apply N.ltb_lt. lia.
Qed.

(** A parameter name is a token, so its lower case never needs the tables. *)
Lemma consumeMediaParam_tables (U1 U2 : UnicodeTables) (v : string) :
  consumeMediaParam (U := U1) v = consumeMediaParam (U := U2) v.
Proof.
  unfold consumeMediaParam.
  destruct (negb (hasPrefixByte ";" (trimLeftSpace v))); [reflexivity |].
  destruct (consumeToken _) as [param rest] eqn:Ht.
  apply consumeToken_token, allChars_token_ascii in Ht.
  unfold ToLower. rewrite Ht. reflexivity.
Qed.

Lemma paramLoop_tables (U1 U2 : UnicodeTables) (fuel : nat)
    (mediatype v : string) (params : gmap string string)
    (continuation : gmap string (gmap string string)) :
  paramLoop (U := U1) fuel mediatype v params continuation
  = paramLoop (U := U2) fuel mediatype v params continuation.
Proof.
  revert v params continuation.
  induction fuel as [| fuel IH]; intros v params continuation; [reflexivity |].
  simpl. unfold paramRound.
  rewrite (consumeMediaParam_tables U1 U2).
  repeat case_match; try reflexivity; apply IH.
Qed.

(** When the part of a header value before its first semicolon is ASCII, the
    parser returns the same whatever the tables. *)
Lemma ParseMediaType_tables (U1 U2 : UnicodeTables) (h : string) :
  isASCII (fst (cut ";" h)) = true ->
  ParseMediaType (U := U1) h = ParseMediaType (U := U2) h.
Proof.
  intros Hascii. unfold ParseMediaType.
  destruct (cut ";" h) as [base found]. simpl in Hascii.
  unfold ToLower. rewrite Hascii.
  destruct (checkMediaTypeDisposition _); [reflexivity |].
  apply paramLoop_tables.
Qed.

End CaseTables.

(** ** base64 *)




Lemma EncodeToString_length_6 (src : string) :
  String.length src = 6 ->
  String.length (RawURLEncoding_EncodeToString src) = 8.
Proof.
  intros H.
  destruct src as [| b0 [| b1 [| b2 [| b3 [| b4 [| b5 [| b6 src]]]]]]];
    try discriminate H.
  reflexivity.
Qed.

(** ** The world *)

Lemma writers_updWriter (w : WriterRef) (f : ResponseWriter -> ResponseWriter)
    (σ : World) :
  writers (updWriter w f σ) w = f (writers σ w).
Proof. simpl. rewrite Nat.eqb_refl. reflexivity. Qed.

Lemma writers_updWriter_ne (w w' : WriterRef)
    (f : ResponseWriter -> ResponseWriter) (σ : World) :
  w' <> w -> writers (updWriter w f σ) w' = writers σ w'.
Proof.
  intros Hne. simpl. apply Nat.eqb_neq in Hne. rewrite Hne. reflexivity.
Qed.

Lemma rw_Write_sent (data : string) (w : ResponseWriter) :
  rw_sent w <> None -> rw_sent (fst (rw_Write data w)) = rw_sent w.
Proof.
  intros Hs. unfold rw_Write, rw_WriteHeader.
  destruct (rw_sent w) eqn:Hsent; [| contradiction].
  destruct (rw_failure w); simpl; assumption.
Qed.


(** A write leaves the status line and headers of a writer that has sent them
    as they are, whichever writer it goes to. *)
Lemma writeTo_sent (w w' : WriterRef) (data : string) (σ : World) :
  rw_sent (writers σ w') <> None ->
  rw_sent (writers (fst (writeTo w data σ)) w') = rw_sent (writers σ w').
Proof.
  intros Hs. unfold writeTo.
  destruct (rw_Write data (writers σ w)) as [wr err] eqn:Hw. simpl.
  destruct (Nat.eqb_spec w' w) as [-> | Hne]; [| reflexivity].
  pose proof (rw_Write_sent data (writers σ w) Hs) as H.
  rewrite Hw in H. exact H.
Qed.


Lemma writeTo_logged (w : WriterRef) (data : string) (σ : World) :
  logged (fst (writeTo w data σ)) = logged σ.
Proof.
  unfold writeTo. destruct (rw_Write data (writers σ w)). reflexivity.
Qed.

(** ** The error encoder *)

Section EncodeProperties.

Context {U : UnicodeTables} {P : RestPackage} {C : Codecs}.



End EncodeProperties.

(** ** The error encoder against the spec's package rest *)

Section SpecRest.

Context {U : UnicodeTables} {C : Codecs}.



End SpecRest.

(** ** Parameter sections the parser accepts *)

Section AcceptedParameters.

Context {U : UnicodeTables}.

Lemma isTokenChar_facts (c : ascii) :
  isTokenChar c = true ->
  (byteval c <? 128)%N = true /\ isASCIISpace c = false
  /\ Ascii.eqb c dquote = false /\ Ascii.eqb c ";" = false.
Proof.
  destruct c as [[] [] [] [] [] [] [] []]; vm_compute; intuition congruence.
Qed.

Lemma trimLeftSpace_keeps (c : ascii) (s : string) :
  (byteval c <? 128)%N = true -> isASCIISpace c = false ->
  trimLeftSpace (String c s) = String c s.
Proof.
  intros Hlt Hns. apply N.ltb_lt in Hlt.
  assert (H194 : (byteval c =? 194)%N = false) by (apply N.eqb_neq; lia).
  assert (H225 : (byteval c =? 225)%N = false) by (apply N.eqb_neq; lia).
  assert (H226 : (byteval c =? 226)%N = false) by (apply N.eqb_neq; lia).
  assert (H227 : (byteval c =? 227)%N = false) by (apply N.eqb_neq; lia).
  destruct s as [| d [| e s]]; cbn [trimLeftSpace]; rewrite Hns; try reflexivity.
  - unfold isSpace2. rewrite H194. reflexivity.
  - unfold isSpace2, isSpace3. rewrite H194, H225, H226, H227. reflexivity.
Qed.

Lemma consumeToken_app (k tail : string) :
  allChars isTokenChar k = true -> tokenEnds tail = true ->
  consumeToken (k +:+ tail) = (k, tail).
Proof.
  intros Hk Htail. induction k as [| c k IH].
  - rewrite append_nil. unfold consumeToken.
    destruct tail as [| d tail]; [reflexivity |].
    simpl in Htail. simpl. unfold isNotTokenChar. rewrite Htail. reflexivity.
  - simpl in Hk. apply andb_true_iff in Hk. destruct Hk as [Hc Hk].
    specialize (IH Hk). rewrite append_cons. unfold consumeToken in *.
    cbn [IndexFunc]. unfold isNotTokenChar at 1. rewrite Hc. cbn [negb].
    destruct (IndexFunc isNotTokenChar (k +:+ tail)) as [[| n] |];
      cbn [fmap option_fmap option_map stake sdrop].
    + injection IH as <- Ht. rewrite <- Ht. reflexivity.
    + injection IH as Hs Hd. cbn [stake sdrop] in Hs, Hd.
      rewrite Hs, Hd. reflexivity.
    + injection IH as Hs Hd. rewrite Hs, <- Hd. reflexivity.
Qed.

Lemma tokenEnds_renderParams (ps : list (string * string)) :
  tokenEnds (renderParams ps) = true.
Proof. destruct ps as [| [k v] ps]; reflexivity. Qed.

Lemma trimLeftSpace_space (s : string) :
  trimLeftSpace (String " " s) = trimLeftSpace s.
Proof. reflexivity. Qed.

(** [consumeMediaParam] step by step, on a parameter whose parts are known. *)
Lemma consumeMediaParam_steps (s1 s3 param value tail : string) :
  trimLeftSpace s1 = s1 ->
  consumeToken s1 = (param, String "=" s3) ->
  String.eqb (ToLower param) "" = false ->
  trimLeftSpace s3 = s3 ->
  consumeValue s3 = (value, tail) ->
  String.eqb value "" = false ->
  consumeMediaParam (String ";" (String " " s1)) = (ToLower param, value, tail).
Proof.
  intros Hs1 Htok Hparam Hs3 Hval Hvalue.
  unfold consumeMediaParam.
  rewrite (trimLeftSpace_keeps ";") by reflexivity.
  change (hasPrefixByte ";" (String ";" (String " " s1))) with true.
  change (sdrop 1 (String ";" (String " " s1))) with (String " " s1).
  cbv beta iota delta [negb].
  rewrite trimLeftSpace_space, Hs1, Htok, Hparam.
  rewrite (trimLeftSpace_keeps "=") by reflexivity.
  change (hasPrefixByte "=" (String "=" s3)) with true.
  change (sdrop 1 (String "=" s3)) with s3.
  cbv beta iota delta [negb].
  rewrite Hs3, Hval, Hvalue. reflexivity.
Qed.

(** One well-formed parameter is consumed whole, its name in lower case. *)
Lemma consumeMediaParam_render (name value tail : string) :
  isToken name = true -> isToken value = true -> tokenEnds tail = true ->
  consumeMediaParam ("; " +:+ name +:+ "=" +:+ value +:+ tail)
  = (asciiLower name, value, tail).
Proof.
  unfold isToken. intros Hn Hv Htail.
  apply andb_true_iff in Hn. destruct Hn as [Hn0 Hn].
  apply andb_true_iff in Hv. destruct Hv as [Hv0 Hv].
  destruct name as [| n0 name]; [discriminate Hn0 |].
  destruct value as [| v0 value]; [discriminate Hv0 |].
  assert (Hn0c : isTokenChar n0 = true)
    by (simpl in Hn; apply andb_true_iff in Hn; tauto).
  assert (Hv0c : isTokenChar v0 = true)
    by (simpl in Hv; apply andb_true_iff in Hv; tauto).
  destruct (isTokenChar_facts n0 Hn0c) as (Hn1 & Hn2 & _ & _).
  destruct (isTokenChar_facts v0 Hv0c) as (Hv1 & Hv2 & Hv3 & _).
  assert (Hlow : ToLower (String n0 name) = asciiLower (String n0 name)).
  { unfold ToLower. rewrite (allChars_token_ascii _ Hn). reflexivity. }
  rewrite <- Hlow.
  change ("; " +:+ String n0 name +:+ "=" +:+ String v0 value +:+ tail)
    with (String ";" (String " "
            (String n0 name +:+ String "=" (String v0 value +:+ tail)))).
  apply (consumeMediaParam_steps
           (String n0 name +:+ String "=" (String v0 value +:+ tail))
           (String v0 value +:+ tail) (String n0 name) (String v0 value) tail).
  - rewrite append_cons. apply trimLeftSpace_keeps; assumption.
  - apply consumeToken_app; [assumption | reflexivity].
  - rewrite Hlow. reflexivity.
  - rewrite append_cons. apply trimLeftSpace_keeps; assumption.
  - unfold consumeValue. rewrite append_cons, Hv3. cbv beta iota delta [negb].
    rewrite <- append_cons. apply consumeToken_app; assumption.
  - reflexivity.
Qed.

End AcceptedParameters.

Section AcceptedSections.

Context {U : UnicodeTables}.

Lemma unseen_default (key baseName : string) (params : gmap string string)
    (continuation : gmap string (gmap string string)) :
  unseen key params continuation ->
  default ∅ (continuation !! baseName) !! key = None.
Proof.
  intros [_ Hc]. destruct (continuation !! baseName) as [pmap |] eqn:Hb; simpl.
  - apply (Hc _ _ Hb).
  - apply lookup_empty.
Qed.

Lemma unseen_insert_params (key key' value : string)
    (params : gmap string string)
    (continuation : gmap string (gmap string string)) :
  key' <> key -> unseen key' params continuation ->
  unseen key' (<[key := value]> params) continuation.
Proof.
  intros Hne [Hp Hc]. split; [| exact Hc].
  rewrite lookup_insert_ne by congruence. exact Hp.
Qed.

Lemma unseen_insert_continuation (key key' value baseName : string)
    (params : gmap string string)
    (continuation : gmap string (gmap string string)) :
  key' <> key -> unseen key' params continuation ->
  unseen key' params
    (<[baseName := <[key := value]> (default ∅ (continuation !! baseName))]>
       continuation).
Proof.
  intros Hne Hu. pose proof (unseen_default key' baseName _ _ Hu) as Hd.
  destruct Hu as [Hp Hc]. split; [exact Hp |].
  intros b pmap Hb.
  destruct (decide (baseName = b)) as [-> | Hnb].
  - rewrite lookup_insert_eq in Hb. injection Hb as <-.
    rewrite lookup_insert_ne by congruence. exact Hd.
  - rewrite lookup_insert_ne in Hb by exact Hnb. apply (Hc _ _ Hb).
Qed.

Lemma asciiLower_nonempty (s : string) :
  String.eqb s "" = false -> String.eqb (asciiLower s) "" = false.
Proof. destruct s; [discriminate | reflexivity]. Qed.

(** The loop runs through a well-formed parameter section without an error,
    whatever number of rounds it is given. *)
Lemma paramLoop_render (ps : list (string * string)) :
  forall (fuel : nat) (mediatype : string) (params : gmap string string)
         (continuation : gmap string (gmap string string)),
    wellFormedParams ps ->
    Forall (fun p => unseen (asciiLower (fst p)) params continuation) ps ->
    paramLoop fuel mediatype (renderParams ps) params continuation
    = (mediatype, None).
Proof.
  induction ps as [| [name value] ps IH];
    intros fuel mediatype params continuation [Htok Hnodup] Hunseen.
  - destruct fuel; reflexivity.
  - destruct fuel as [| fuel]; [reflexivity |].
    apply Forall_cons in Htok. destruct Htok as [[Hname Hvalue] Htok].
    apply Forall_cons in Hunseen. destruct Hunseen as [Hkey Hunseen].
    simpl in Hname, Hvalue, Hkey, Hnodup.
    apply NoDup_cons in Hnodup. destruct Hnodup as [Hnotin Hnodup].
    assert (Hothers : Forall (fun p => asciiLower (fst p) <> asciiLower name) ps).
    { apply Forall_forall. intros p Hin Heq. apply Hnotin.
      rewrite <- Heq. apply list_elem_of_fmap. exists p. auto. }
    cbn [paramLoop]. unfold paramRound.
    change (renderParams ((name, value) :: ps))
      with ("; " +:+ name +:+ "=" +:+ value +:+ renderParams ps).
    change ("; " +:+ name +:+ "=" +:+ value +:+ renderParams ps)
      with (String ";" (String " " (name +:+ "=" +:+ value +:+ renderParams ps)))
      at 1 2 3.
    rewrite (trimLeftSpace_keeps ";") by reflexivity.
    change (String.eqb (String ";" ?s) "") with false. cbv beta iota.
    change (String ";" (String " " (name +:+ "=" +:+ value +:+ renderParams ps)))
      with ("; " +:+ name +:+ "=" +:+ value +:+ renderParams ps).
    rewrite consumeMediaParam_render
      by (assumption || apply tokenEnds_renderParams).
    assert (Hne : String.eqb (asciiLower name) "" = false).
    { apply asciiLower_nonempty. unfold isToken in Hname.
      apply andb_true_iff in Hname. destruct Hname as [Hname _].
      apply negb_true_iff in Hname. exact Hname. }
    rewrite Hne.
    destruct (cut "*" (asciiLower name)) as [baseName ok].
    destruct ok.
    + rewrite (unseen_default _ baseName _ _ Hkey).
      apply IH; [split; assumption |].
      rewrite Forall_forall in Hunseen, Hothers. apply Forall_forall.
      intros p Hin. apply unseen_insert_continuation; auto.
    + destruct Hkey as [Hp Hc]. rewrite Hp.
      apply IH; [split; assumption |].
      rewrite Forall_forall in Hunseen, Hothers. apply Forall_forall.
      intros p Hin. apply unseen_insert_params; auto.
Qed.

End AcceptedSections.

Section StrippedParameters.

Context {U : UnicodeTables}.

(** The parser accepts a supported media type followed by a well-formed
    parameter section, and returns the media type. *)
Lemma ParseMediaType_render (c : Codec) (ps : list (string * string)) :
  wellFormedParams ps ->
  ParseMediaType (mediaType c +:+ renderParams ps) = (mediaType c, None).
Proof.
  intros Hwf. unfold ParseMediaType.
  assert (Hcut : fst (cut ";" (mediaType c +:+ renderParams ps)) = mediaType c).
  { destruct ps as [| [name value] ps]; destruct c; reflexivity. }
  destruct (cut ";" (mediaType c +:+ renderParams ps)) as [base found].
  simpl in Hcut. subst base.
  assert (Hm : TrimSpace (ToLower (mediaType c)) = mediaType c)
    by (destruct c; vm_compute; reflexivity).
  assert (Hchk : checkMediaTypeDisposition (mediaType c) = None)
    by (destruct c; vm_compute; reflexivity).
  assert (Hdrop : sdrop (String.length (mediaType c))
                    (mediaType c +:+ renderParams ps) = renderParams ps)
    by (destruct c; reflexivity).
  rewrite Hm, Hchk, Hdrop.
  apply paramLoop_render; [exact Hwf |].
  apply Forall_forall. intros p _. split; [apply lookup_empty |].
  intros baseName pmap Hb. rewrite lookup_empty in Hb. discriminate Hb.
Qed.

(** X1. A supported media type followed by a well-formed parameter section is
    treated by the three operations as the media type alone. *)
Theorem token_parameters_are_stripped (c : Codec) (ps : list (string * string))
    (r : Request) (w : WriterRef) :
  wellFormedParams ps ->
  let h := mediaType c +:+ renderParams ps in
  (Header_Get (Header r) "Content-Type" = h ->
   NewHTTPDecoder r = decoderOf c (Body r))
  /\ (Header_Get (Header r) "Accept" = h ->
      NewHTTPEncoder w r = encoderOf c w
      /\ ResponseContentType r = mediaType c).
Proof.
  intros Hwf h.
  assert (Hm : parsedMediaType h = mediaType c).
  { unfold parsedMediaType, h. rewrite (ParseMediaType_render c ps Hwf).
    reflexivity. }
  assert (Hne : String.eqb h "" = false) by (destruct c; reflexivity).
  split; intros Hh.
  - rewrite NewHTTPDecoder_unfold. simpl. rewrite Hh, Hne, Hm.
    apply switchDecoder_mediaType.
  - rewrite NewHTTPEncoder_unfold, ResponseContentType_unfold. simpl.
    rewrite Hh, Hne, Hm. split; [apply switchEncoder_mediaType |].
    destruct c; reflexivity.
Qed.

End StrippedParameters.

(** ** The error encoder and its writer *)

Section EncodeEffects.

Context {U : UnicodeTables} {P : RestPackage} {C : Codecs}.

Lemma encoderWriter_NewHTTPEncoder (w : WriterRef) (r : Request) :
  encoderWriter (NewHTTPEncoder w r) = w.
Proof.
  rewrite NewHTTPEncoder_unfold. simpl. unfold switchEncoder.
  repeat case_match; reflexivity.
Qed.

Lemma ResponseContentType_of_encoder_any (r : Request) (w : WriterRef) :
  ResponseContentType r = mediaType (encoderCodec (NewHTTPEncoder w r)).
Proof.
  rewrite ResponseContentType_unfold, NewHTTPEncoder_unfold. simpl.
  unfold switchEncoder. repeat case_match; simplify_eq; try reflexivity;
    repeat match goal with
    | H : String.eqb _ _ = true |- _ => apply String.eqb_eq in H
    end; simpl in *; congruence.
Qed.

Lemma writeTo_other (w w' : WriterRef) (data : string) (σ : World) :
  w' <> w -> writers (fst (writeTo w data σ)) w' = writers σ w'.
Proof.
  intros Hne. unfold writeTo.
  destruct (rw_Write data (writers σ w)) as [wr err]. simpl.
  apply Nat.eqb_neq in Hne. rewrite Hne. reflexivity.
Qed.

Lemma writeTo_entropy (w : WriterRef) (data : string) (σ : World) :
  entropy (fst (writeTo w data σ)) = entropy σ.
Proof.
  unfold writeTo. destruct (rw_Write data (writers σ w)). reflexivity.
Qed.

Lemma Encoder_Encode_other (enc : Encoder) (v : ErrorResponse) (σ : World)
    (w' : WriterRef) :
  w' <> encoderWriter enc ->
  writers (fst (Encoder_Encode enc v σ)) w' = writers σ w'.
Proof.
  intros Hne. unfold Encoder_Encode.
  destruct (encoded enc v); [apply writeTo_other, Hne | reflexivity].
Qed.

(** X6. [Encode] leaves every writer alone but the one of its encoder, which an
    encoder made by [NewErrorHTTPEncoder] shares with the body encoder. *)
Theorem Encode_touches_one_writer {Logger : Type} (w w' : WriterRef)
    (r : Request) (logger : Logger) (handled : error) (σ : World) :
  w' <> w ->
  writers (outcomeWorld (Encode (NewErrorHTTPEncoder w r logger) handled σ)) w'
  = writers σ w'.
Proof.
  intros Hne.
  assert (Hupd : forall f σ0, writers (updWriter w f σ0) w' = writers σ0 w')
    by (intros f σ0; apply writers_updWriter_ne, Hne).
  assert (Hdefault : forall σ0 : World,
    writers (outcomeWorld
      (let '(b, σ1) := rand_Read 6 σ0 in
       let id := RawURLEncoding_EncodeToString b +:+ ": " in
       let σ2 := updWriter w (rw_Header_Set "Content-Type" "text/plain") σ1 in
       let σ3 := updWriter w (rw_WriteHeader http_StatusInternalServerError) σ2 in
       match error_Error handled with
       | Some msg =>
           let '(σ4, _) := writeTo w (id +:+ msg) σ3 in
           Returns (log (logger_Error ["id"; id; "error"; msg]) σ4)
       | None => Panics σ3
       end)) w' = writers σ0 w').
  { intros σ0. unfold rand_Read.
    destruct (readFull 6 (entropy σ0)) as [b rest].
    destruct (error_Error handled) as [msg |].
    - match goal with |- context [writeTo w ?d ?s] =>
        pose proof (writeTo_other w w' d s Hne) as Hw;
        destruct (writeTo w d s) as [σ4 e4] end.
      cbn [fst] in Hw. cbn [outcomeWorld log writers].
      rewrite Hw, !Hupd. reflexivity.
    - cbn [outcomeWorld]. rewrite !Hupd. reflexivity. }
  destruct handled as [| t | msg]; unfold Encode, NewErrorHTTPEncoder;
    cbn [ee_w ee_r ee_encoder]; [apply Hdefault | | apply Hdefault].
  match goal with |- context [Encoder_Encode ?enc ?v ?s] =>
    pose proof (Encoder_Encode_other enc v s w') as He;
    destruct (Encoder_Encode enc v s) as [σ2 err] end.
  rewrite encoderWriter_NewHTTPEncoder in He. specialize (He Hne).
  cbn [fst] in He.
  destruct err; cbn [outcomeWorld log writers];
    rewrite He, !Hupd; reflexivity.
Qed.


(** X8. Once a writer has sent its status line and headers, [Encode] does not
    change them, whatever the error: the status of the error is not sent. *)
Theorem Encode_after_header_sent (e : errorEncoder) (handled : error)
    (σ : World) :
  rw_sent (writers σ (ee_w e)) <> None ->
  rw_sent (writers (outcomeWorld (Encode e handled σ)) (ee_w e))
  = rw_sent (writers σ (ee_w e)).
Proof.
  intros Hsent.
  assert (Hset : forall v, rw_sent (rw_Header_Set "Content-Type" v
                                      (writers σ (ee_w e)))
                           = rw_sent (writers σ (ee_w e))) by reflexivity.
  assert (Hwh : forall code v,
    rw_sent (rw_WriteHeader code
               (rw_Header_Set "Content-Type" v (writers σ (ee_w e))))
    = rw_sent (writers σ (ee_w e))).
  { intros code v. unfold rw_WriteHeader. rewrite Hset.
    destruct (rw_sent (writers σ (ee_w e))) eqn:E; [| contradiction].
    cbn [rw_Header_Set rw_sent]. exact E. }
  destruct handled as [| t | msg]; unfold Encode.
  - unfold rand_Read. destruct (readFull 6 (entropy σ)) as [b rest].
    simpl. rewrite Nat.eqb_refl. apply Hwh.
  - set (σ1 := updWriter (ee_w e) (rw_WriteHeader _) (updWriter (ee_w e) _ σ)).
    assert (H1 : rw_sent (writers σ1 (ee_w e)) = rw_sent (writers σ (ee_w e))).
    { unfold σ1. rewrite !writers_updWriter. apply Hwh. }
    unfold Encoder_Encode.
    destruct (encoded (ee_encoder e) (NewErrorResponse t)) as [b | err].
    + pose proof (writeTo_sent (encoderWriter (ee_encoder e)) (ee_w e) b σ1)
        as Hkeep.
      rewrite H1 in Hkeep. specialize (Hkeep Hsent).
      destruct (writeTo (encoderWriter (ee_encoder e)) b σ1) as [σ2 err].
      simpl in Hkeep. destruct err; simpl; exact Hkeep.
    + simpl. exact H1.
  - unfold rand_Read. destruct (readFull 6 (entropy σ)) as [b rest].
    cbn [error_Error].
    match goal with |- context [writeTo ?w ?d ?s] =>
      pose proof (writeTo_sent w (ee_w e) d s) as Hkeep;
      destruct (writeTo w d s) as [σ4 e4] eqn:Hw end.
    simpl in Hkeep. rewrite !Nat.eqb_refl in Hkeep.
    simpl. rewrite Hkeep; [apply Hwh | rewrite Hwh; exact Hsent].
Qed.

End EncodeEffects.

(** ** Selection: echoed content types, JSON with any parameters, lists *)

Section SelectionFurther.

Context {U : UnicodeTables}.

Lemma ResponseContentType_supported (r : Request) :
  supported (ResponseContentType r).
Proof.
  rewrite ResponseContentType_unfold. simpl.
  destruct (String.eqb _ ""); [left; reflexivity |].
  set (m := parsedMediaType _).
  destruct (String.eqb m "application/json" || String.eqb m "application/gob"
            || String.eqb m "application/xml") eqn:Hs.
  - apply supported_eqb, Hs.
  - left. reflexivity.
Qed.

(** X5. The content type the response is given, sent back as the [Content-Type] of
    a request, selects the decoder of the codec that encoded the response;
    sent back as [Accept], it selects the same encoder and the same content
    type again. *)
Theorem echoed_content_type_selects_same_codec (r r' : Request)
    (w : WriterRef) :
  (Header_Get (Header r') "Content-Type" = ResponseContentType r ->
   NewHTTPDecoder r'
   = decoderOf (encoderCodec (NewHTTPEncoder w r)) (Body r'))
  /\ (Header_Get (Header r') "Accept" = ResponseContentType r ->
      NewHTTPEncoder w r' = NewHTTPEncoder w r
      /\ ResponseContentType r' = ResponseContentType r).
Proof.
  pose proof (ResponseContentType_of_encoder_any r w) as Hct.
  assert (Henc : NewHTTPEncoder w r
                 = encoderOf (encoderCodec (NewHTTPEncoder w r)) w).
  { pose proof (encoderWriter_NewHTTPEncoder w r) as Hw.
    destruct (NewHTTPEncoder w r); simpl in *; congruence. }
  set (c := encoderCodec (NewHTTPEncoder w r)) in *.
  split; intros Hh; rewrite Hct in Hh.
  - rewrite NewHTTPDecoder_unfold. simpl.
    rewrite Hh, mediaType_nonempty, parsedMediaType_mediaType.
    apply switchDecoder_mediaType.
  - rewrite NewHTTPEncoder_unfold, ResponseContentType_unfold. simpl.
    rewrite Hh, mediaType_nonempty, parsedMediaType_mediaType.
    rewrite switchEncoder_mediaType, Hct. split; [symmetry; exact Henc |].
    destruct c; reflexivity.
Qed.

(** X2. A value that starts with [application/json;] selects JSON whatever comes
    after the semicolon: when the parser accepts it the media type is JSON,
    and when it does not the value falls to the default. *)
Theorem json_with_any_parameters (rest : string) (r : Request)
    (w : WriterRef) :
  let h := "application/json;" +:+ rest in
  (Header_Get (Header r) "Content-Type" = h ->
   NewHTTPDecoder r = json_NewDecoder (Body r))
  /\ (Header_Get (Header r) "Accept" = h ->
      NewHTTPEncoder w r = json_NewEncoder w
      /\ ResponseContentType r = "application/json").
Proof.
  intros h.
  assert (Hm : parsedMediaType h = "application/json" \/ ~ supported (parsedMediaType h)).
  { unfold parsedMediaType. destruct (ParseMediaType h) as [m [err |]] eqn:Hp.
    - right. apply rejected_not_supported. rewrite Hp. discriminate.
    - left. apply (ParseMediaType_parameters JSON rest m Hp). }
  assert (Hne : String.eqb h "" = false) by reflexivity.
  split; intros Hh.
  - rewrite NewHTTPDecoder_unfold. simpl. rewrite Hh, Hne.
    destruct Hm as [-> | Hm]; [reflexivity | apply switchDecoder_unsupported, Hm].
  - rewrite NewHTTPEncoder_unfold, ResponseContentType_unfold. simpl.
    rewrite Hh, Hne. destruct Hm as [-> | Hm]; [split; reflexivity |].
    split; [apply switchEncoder_unsupported, Hm |].
    destruct (String.eqb _ "application/json" || String.eqb _ "application/gob"
              || String.eqb _ "application/xml") eqn:Hs; [| reflexivity].
    apply supported_eqb in Hs. contradiction.
Qed.

End SelectionFurther.

(** ** Lists of media types *)

Section MediaTypeLists.

Context {U : UnicodeTables}.

Lemma eqb_comma_byteval (c : ascii) :
  byteval c <> 44%N -> Ascii.eqb c "," = false.
Proof.
  intros Hne. apply Ascii.eqb_neq. intros ->. apply Hne. reflexivity.
Qed.

Lemma isASCIISpace_not_comma (c : ascii) :
  isASCIISpace c = true -> Ascii.eqb c "," = false.
Proof.
  intros Hs. apply eqb_comma_byteval. intros Hc.
  unfold isASCIISpace in Hs. rewrite Hc in Hs. discriminate Hs.
Qed.

Lemma isSpace2_not_comma (c d : ascii) :
  isSpace2 c d = true -> Ascii.eqb c "," = false /\ Ascii.eqb d "," = false.
Proof.
  unfold isSpace2. intros Hs.
  split; apply eqb_comma_byteval; intros Hc; rewrite Hc in Hs;
    [discriminate Hs |].
  rewrite andb_false_r in Hs. discriminate Hs.
Qed.

Lemma isSpace3_not_comma (c d e : ascii) :
  isSpace3 c d e = true ->
  Ascii.eqb c "," = false /\ Ascii.eqb d "," = false
  /\ Ascii.eqb e "," = false.
Proof.
  unfold isSpace3. intros Hs.
  repeat split; apply eqb_comma_byteval; intros Hc; rewrite Hc in Hs;
    cbn in Hs; rewrite ?andb_false_r in Hs;
    repeat match type of Hs with
    | context [(?x =? ?y)%N] => destruct (x =? y)%N
    | context [(?x <=? ?y)%N] => destruct (x <=? y)%N
    end; discriminate Hs.
Qed.

Lemma trimLeftSpace_cons (c : ascii) (s1 : string) :
  trimLeftSpace (String c s1) =
  if isASCIISpace c then trimLeftSpace s1
  else
    match s1 with
    | EmptyString => String c s1
    | String d s2 =>
        if isSpace2 c d then trimLeftSpace s2
        else
          match s2 with
          | EmptyString => String c s1
          | String e s3 =>
              if isSpace3 c d e then trimLeftSpace s3 else String c s1
          end
    end.
Proof. destruct s1 as [| d [| e s3]]; reflexivity. Qed.

Lemma trimLeftSpaceRev_cons (c : ascii) (s1 : string) :
  trimLeftSpaceRev (String c s1) =
  if isASCIISpace c then trimLeftSpaceRev s1
  else
    match s1 with
    | EmptyString => String c s1
    | String d s2 =>
        if isSpace2 d c then trimLeftSpaceRev s2
        else
          match s2 with
          | EmptyString => String c s1
          | String e s3 =>
              if isSpace3 e d c then trimLeftSpaceRev s3 else String c s1
          end
    end.
Proof. destruct s1 as [| d [| e s3]]; reflexivity. Qed.

(** Trimming white space removes no comma. *)
Lemma containsByte_trimLeftSpace (s : string) :
  containsByte (trimLeftSpace s) "," = containsByte s ",".
Proof.
  remember (String.length s) as n eqn:Hn.
  assert (Hle : String.length s <= n) by lia. clear Hn.
  revert s Hle. induction n as [| n IH]; intros s Hle.
  - destruct s; [reflexivity | simpl in Hle; lia].
  - destruct s as [| c s1]; [reflexivity |].
    rewrite trimLeftSpace_cons. simpl in Hle.
    destruct (isASCIISpace c) eqn:Hc.
    { rewrite IH by lia. cbn [containsByte].
      rewrite (isASCIISpace_not_comma c Hc). reflexivity. }
    destruct s1 as [| d s2]; [reflexivity |]. simpl in Hle.
    destruct (isSpace2 c d) eqn:H2.
    { rewrite IH by lia. cbn [containsByte].
      destruct (isSpace2_not_comma c d H2) as [-> ->]. reflexivity. }
    destruct s2 as [| e s3]; [reflexivity |]. simpl in Hle.
    destruct (isSpace3 c d e) eqn:H3; [| reflexivity].
    rewrite IH by lia. cbn [containsByte].
    destruct (isSpace3_not_comma c d e H3) as (-> & -> & ->). reflexivity.
Qed.

Lemma containsByte_trimLeftSpaceRev (s : string) :
  containsByte (trimLeftSpaceRev s) "," = containsByte s ",".
Proof.
  remember (String.length s) as n eqn:Hn.
  assert (Hle : String.length s <= n) by lia. clear Hn.
  revert s Hle. induction n as [| n IH]; intros s Hle.
  - destruct s; [reflexivity | simpl in Hle; lia].
  - destruct s as [| c s1]; [reflexivity |].
    rewrite trimLeftSpaceRev_cons. simpl in Hle.
    destruct (isASCIISpace c) eqn:Hc.
    { rewrite IH by lia. cbn [containsByte].
      rewrite (isASCIISpace_not_comma c Hc). reflexivity. }
    destruct s1 as [| d s2]; [reflexivity |]. simpl in Hle.
    destruct (isSpace2 d c) eqn:H2.
    { rewrite IH by lia. cbn [containsByte].
      destruct (isSpace2_not_comma d c H2) as [-> ->]. reflexivity. }
    destruct s2 as [| e s3]; [reflexivity |]. simpl in Hle.
    destruct (isSpace3 e d c) eqn:H3; [| reflexivity].
    rewrite IH by lia. cbn [containsByte].
    destruct (isSpace3_not_comma e d c H3) as (-> & -> & ->). reflexivity.
Qed.

Lemma containsByte_srev_append (s acc : string) (x : ascii) :
  containsByte (srev_append s acc) x = containsByte s x || containsByte acc x.
Proof.
  revert acc. induction s as [| c s IH]; intros acc; simpl; [reflexivity |].
  rewrite IH. simpl. destruct (Ascii.eqb c x), (containsByte s x); reflexivity.
Qed.

Lemma containsByte_srev (s : string) (x : ascii) :
  containsByte (srev s) x = containsByte s x.
Proof.
  unfold srev. rewrite containsByte_srev_append. simpl. apply orb_false_r.
Qed.

Lemma containsByte_TrimSpace (s : string) :
  containsByte (TrimSpace s) "," = containsByte s ",".
Proof.
  unfold TrimSpace, trimRightSpace.
  rewrite containsByte_srev, containsByte_trimLeftSpaceRev, containsByte_srev.
  apply containsByte_trimLeftSpace.
Qed.

Lemma lowerByte_comma (c : ascii) :
  Ascii.eqb (lowerByte c) "," = Ascii.eqb c ",".
Proof.
  destruct c as [[] [] [] [] [] [] [] []]; vm_compute; reflexivity.
Qed.

Lemma containsByte_asciiLower (s : string) :
  containsByte (asciiLower s) "," = containsByte s ",".
Proof.
  induction s as [| c s IH]; simpl; [reflexivity |].
  rewrite lowerByte_comma, IH. reflexivity.
Qed.

Lemma containsByte_cut (sep x : ascii) (s : string) :
  containsByte (fst (cut sep s)) x = true -> containsByte s x = true.
Proof.
  induction s as [| c s IH]; simpl; [discriminate |].
  destruct (Ascii.eqb c sep); [discriminate |].
  destruct (cut sep s) as [b f]. simpl in *.
  destruct (Ascii.eqb c x); [reflexivity | exact IH].
Qed.

Lemma supported_no_comma (m : string) :
  supported m -> containsByte m "," = false.
Proof. intros [-> | [-> | ->]]; reflexivity. Qed.

(** X3. A value whose part before the first semicolon is ASCII and holds a comma,
    as a list of media types does, is never one of the supported types for
    the three operations: they select JSON. *)
Theorem media_type_list_selects_json (h : string) (r : Request)
    (w : WriterRef) :
  isASCII (fst (cut ";" h)) = true ->
  containsByte (fst (cut ";" h)) "," = true ->
  (Header_Get (Header r) "Content-Type" = h ->
   NewHTTPDecoder r = json_NewDecoder (Body r))
  /\ (Header_Get (Header r) "Accept" = h ->
      NewHTTPEncoder w r = json_NewEncoder w
      /\ ResponseContentType r = "application/json").
Proof.
  intros Hascii Hcomma.
  assert (Hns : ~ supported (parsedMediaType h)).
  { intros Hs. apply supported_no_comma in Hs.
    unfold parsedMediaType in Hs.
    destruct (ParseMediaType h) as [m [err |]] eqn:Hp.
    - rewrite (containsByte_cut _ _ _ Hcomma) in Hs. discriminate Hs.
    - apply ParseMediaType_accepted in Hp. subst m.
      unfold ToLower in Hs.
      rewrite Hascii, containsByte_TrimSpace, containsByte_asciiLower, Hcomma
        in Hs.
      discriminate Hs. }
  assert (Hne : String.eqb h "" = false).
  { destruct h; [discriminate Hcomma | reflexivity]. }
  split; intros Hh.
  - rewrite NewHTTPDecoder_unfold. simpl. rewrite Hh, Hne.
    apply switchDecoder_unsupported, Hns.
  - rewrite NewHTTPEncoder_unfold, ResponseContentType_unfold. simpl.
    rewrite Hh, Hne. split; [apply switchEncoder_unsupported, Hns |].
    destruct (String.eqb _ "application/json" || String.eqb _ "application/gob"
              || String.eqb _ "application/xml") eqn:Hs; [| reflexivity].
    apply supported_eqb in Hs. contradiction.
Qed.

End MediaTypeLists.

(** ** base64 loses nothing of the random bytes *)

Section Base64Injective.

Local Open Scope N_scope.

Lemma decodeAt_encodeAt (i : N) : i < 64 -> decodeAt (encodeAt i) = i.
Proof.
  intros Hlt.
  assert (Hk : exists k, (k < 64)%nat /\ i = N.of_nat k).
  { exists (N.to_nat i). split; lia. }
  destruct Hk as [k [Hk ->]].
  do 64 (destruct k as [| k]; [vm_compute; reflexivity |]). lia.
Qed.

Lemma encodeAt_sextet_inj (x y : N) :
  encodeAt (N.land x 63) = encodeAt (N.land y 63) -> x mod 64 = y mod 64.
Proof.
  intros H. apply (f_equal decodeAt) in H.
  change 63 with (N.ones 6) in H. rewrite !N.land_ones in H.
  rewrite !decodeAt_encodeAt in H by (apply N.mod_lt; discriminate).
  exact H.
Qed.

Lemma testbit_small (x i n : N) : x < 2 ^ n -> n <= i -> N.testbit x i = false.
Proof.
  intros Hx Hi.
  assert (H : N.b2n (N.testbit x i) = 0).
  { rewrite N.testbit_spec'.
    assert (Hp : 2 ^ n <= 2 ^ i) by (apply N.pow_le_mono_r; lia).
    rewrite N.div_small by lia. reflexivity. }
  destruct (N.testbit x i); [discriminate H | reflexivity].
Qed.

Lemma lor_shiftl_add (x y n : N) :
  x < 2 ^ n -> N.lor (N.shiftl y n) x = y * 2 ^ n + x.
Proof.
  intros Hx.
  assert (Hland : N.land (N.shiftl y n) x = 0).
  { apply N.bits_inj_0. intros i. rewrite N.land_spec.
    destruct (N.lt_ge_cases i n) as [Hlt | Hge].
    - rewrite N.shiftl_spec_low by exact Hlt. reflexivity.
    - rewrite (testbit_small x i n Hx Hge). apply andb_false_r. }
  rewrite <- N.lxor_lor by exact Hland.
  rewrite <- N.add_nocarry_lxor by exact Hland.
  rewrite N.shiftl_mul_pow2. reflexivity.
Qed.

Lemma byteval_bound (c : ascii) : byteval c < 256.
Proof. apply N_ascii_bounded. Qed.

Lemma byteval_inj (c d : ascii) : byteval c = byteval d -> c = d.
Proof.
  intros H. rewrite <- (ascii_N_embedding c), <- (ascii_N_embedding d).
  unfold byteval in H. rewrite H. reflexivity.
Qed.

(** [uint(s0)<<16 | uint(s1)<<8 | uint(s2)] as a sum. *)
Lemma group_value (s0 s1 s2 : ascii) :
  N.lor (N.lor (N.shiftl (byteval s0) 16) (N.shiftl (byteval s1) 8))
    (byteval s2)
  = byteval s0 * 65536 + byteval s1 * 256 + byteval s2.
Proof.
  pose proof (byteval_bound s0) as H0. pose proof (byteval_bound s1) as H1.
  pose proof (byteval_bound s2) as H2.
  assert (Hlow : N.shiftl (byteval s1) 8 < 2 ^ 16).
  { rewrite N.shiftl_mul_pow2. change (2 ^ 8) with 256.
    change (2 ^ 16) with 65536. lia. }
  rewrite (lor_shiftl_add _ _ 16 Hlow).
  replace (byteval s0 * 2 ^ 16 + N.shiftl (byteval s1) 8)
    with (N.shiftl (byteval s0 * 256 + byteval s1) 8).
  - rewrite (lor_shiftl_add (byteval s2) _ 8) by exact H2.
    change (2 ^ 8) with 256. lia.
  - rewrite !N.shiftl_mul_pow2. change (2 ^ 8) with 256.
    change (2 ^ 16) with 65536. lia.
Qed.

Lemma sextets_value (v : N) :
  v < 16777216 ->
  v = 262144 * ((v / 262144) mod 64) + 4096 * ((v / 4096) mod 64)
      + 64 * ((v / 64) mod 64) + v mod 64.
Proof.
  intros Hv.
  replace (v / 4096) with (v / 64 / 64)
    by (rewrite N.Div0.div_div; reflexivity).
  replace (v / 262144) with (v / 64 / 64 / 64)
    by (rewrite !N.Div0.div_div; reflexivity).
  pose proof (N.div_mod' v 64) as H1.
  pose proof (N.div_mod' (v / 64) 64) as H2.
  pose proof (N.div_mod' (v / 64 / 64) 64) as H3.
  assert (H4 : v / 64 / 64 / 64 < 64).
  { rewrite !N.Div0.div_div. apply N.Div0.div_lt_upper_bound. exact Hv. }
  rewrite (N.mod_small _ _ H4).
  generalize dependent (v mod 64). generalize dependent ((v / 64) mod 64).
  generalize dependent ((v / 64 / 64) mod 64).
  generalize dependent (v / 64 / 64 / 64).
  generalize dependent (v / 64 / 64). generalize dependent (v / 64).
  intros. lia.
Qed.

(** Four characters of the encoding give back the three bytes they encode. *)
Lemma group_inj (s0 s1 s2 t0 t1 t2 : ascii) (rest rest' : string) :
  RawURLEncoding_EncodeToString (String s0 (String s1 (String s2 rest)))
  = RawURLEncoding_EncodeToString (String t0 (String t1 (String t2 rest'))) ->
  s0 = t0 /\ s1 = t1 /\ s2 = t2
  /\ RawURLEncoding_EncodeToString rest = RawURLEncoding_EncodeToString rest'.
Proof.
  cbn [RawURLEncoding_EncodeToString]. rewrite !group_value.
  set (v := byteval s0 * 65536 + byteval s1 * 256 + byteval s2).
  set (v' := byteval t0 * 65536 + byteval t1 * 256 + byteval t2).
  intros H. injection H as H18 H12 H6 H0 Hrest.
  apply encodeAt_sextet_inj in H18, H12, H6, H0.
  rewrite !N.shiftr_div_pow2 in H18, H12, H6.
  change (2 ^ 18) with 262144 in H18. change (2 ^ 12) with 4096 in H12.
  change (2 ^ 6) with 64 in H6.
  pose proof (byteval_bound s0). pose proof (byteval_bound s1).
  pose proof (byteval_bound s2). pose proof (byteval_bound t0).
  pose proof (byteval_bound t1). pose proof (byteval_bound t2).
  assert (Hv : v < 16777216) by (unfold v; lia).
  assert (Hv' : v' < 16777216) by (unfold v'; lia).
  pose proof (sextets_value v Hv) as E. pose proof (sextets_value v' Hv') as E'.
  rewrite H18, H12, H6, H0 in E. rewrite <- E' in E.
  unfold v, v' in E.
  repeat split; [apply byteval_inj; lia .. | exact Hrest].
Qed.

(** The encoding of six bytes is one-to-one. *)
Lemma EncodeToString_inj_6 (b b' : string) :
  String.length b = 6%nat -> String.length b' = 6%nat ->
  RawURLEncoding_EncodeToString b = RawURLEncoding_EncodeToString b' ->
  b = b'.
Proof.
  intros Hb Hb' H.
  destruct b as [| b0 [| b1 [| b2 [| b3 [| b4 [| b5 [| b6 b]]]]]]];
    try discriminate Hb.
  destruct b' as [| c0 [| c1 [| c2 [| c3 [| c4 [| c5 [| c6 b']]]]]]];
    try discriminate Hb'.
  apply group_inj in H. destruct H as (-> & -> & -> & H).
  apply group_inj in H. destruct H as (-> & -> & -> & _).
  reflexivity.
Qed.

End Base64Injective.

(** ** The random bytes of successive errors *)

Section SuccessiveErrors.

Context {U : UnicodeTables} {P : RestPackage} {C : Codecs}.

Lemma readFull_app (b rest : string) :
  readFull (String.length b) (b +:+ rest) = (b, rest).
Proof.
  induction b as [| c b IH]; [reflexivity |].
  rewrite append_cons. simpl. rewrite IH. reflexivity.
Qed.

(** What an error that is not a [goa.Error] leaves in the log and of the
    random bytes. *)
Lemma Encode_unclassified_log (e : errorEncoder) (msg : string) (σ : World) :
  let o := Encode e (unclassified msg) σ in
  returned o = true
  /\ logged (outcomeWorld o)
     = (logged σ
        ++ [logger_Error
              ["id";
               RawURLEncoding_EncodeToString (fst (readFull 6 (entropy σ)))
               +:+ ": ";
               "error"; msg]])%list
  /\ entropy (outcomeWorld o) = snd (readFull 6 (entropy σ)).
Proof.
  unfold Encode, rand_Read.
  destruct (readFull 6 (entropy σ)) as [b rest]. cbn [error_Error fst snd].
  match goal with |- context [writeTo ?w ?d ?s] =>
    pose proof (writeTo_logged w d s) as Hl;
    pose proof (writeTo_entropy w d s) as He;
    destruct (writeTo w d s) as [σ4 e4] end.
  cbn [fst] in Hl, He. cbn [outcomeWorld returned log logged entropy].
  rewrite Hl, He. auto.
Qed.

(** X10. Each error that is not a [goa.Error] reads six random bytes of its own:
    two in a row are logged with the ids of two successive chunks of the
    random source, and the ids differ when the chunks do. *)
Theorem successive_ids (e e' : errorEncoder) (msg msg' : string) (σ : World)
    (b1 b2 rest : string) :
  entropy σ = b1 +:+ b2 +:+ rest ->
  String.length b1 = 6 -> String.length b2 = 6 ->
  let id1 := RawURLEncoding_EncodeToString b1 in
  let id2 := RawURLEncoding_EncodeToString b2 in
  let σ1 := outcomeWorld (Encode e (unclassified msg) σ) in
  let σ2 := outcomeWorld (Encode e' (unclassified msg') σ1) in
  logged σ2
  = (logged σ
     ++ [logger_Error ["id"; id1 +:+ ": "; "error"; msg];
         logger_Error ["id"; id2 +:+ ": "; "error"; msg']])%list
  /\ entropy σ2 = rest
  /\ (b1 <> b2 -> id1 <> id2).
Proof.
  intros Hent H1 H2 id1 id2 σ1 σ2.
  destruct (Encode_unclassified_log e msg σ) as (_ & Hlog1 & Hent1).
  destruct (Encode_unclassified_log e' msg' σ1) as (_ & Hlog2 & Hent2).
  fold σ1 in Hlog1, Hent1. fold σ2 in Hlog2, Hent2.
  rewrite Hent, <- H1, readFull_app in Hlog1, Hent1.
  cbn [fst snd] in Hlog1, Hent1.
  rewrite Hent1, <- H2, readFull_app in Hlog2, Hent2.
  cbn [fst snd] in Hlog2, Hent2.
  split; [| split].
  - rewrite Hlog2, Hlog1, <- app_assoc. reflexivity.
  - exact Hent2.
  - intros Hne Hid. apply Hne.
    apply EncodeToString_inj_6; assumption.
Qed.

Lemma append_inj_l (a b s t : string) :
  String.length a = String.length b -> a +:+ s = b +:+ t -> a = b.
Proof.
  revert b. induction a as [| x a IH]; intros [| y b] Hlen H;
    try discriminate Hlen; [reflexivity |].
  rewrite !append_cons in H. injection H as -> H.
  f_equal. apply IH; [simpl in Hlen; lia | exact H].
Qed.

(** X9. The id is a one-to-one image of the six random bytes: for one message,
    two calls leave the same log entry exactly when they read the same six
    bytes. *)
Theorem correlation_id_injective (e : errorEncoder) (msg : string)
    (σ σ' : World) (b b' rest rest' : string) :
  entropy σ = b +:+ rest -> entropy σ' = b' +:+ rest' ->
  String.length b = 6 -> String.length b' = 6 ->
  logged σ' = logged σ ->
  logged (outcomeWorld (Encode e (unclassified msg) σ))
  = logged (outcomeWorld (Encode e (unclassified msg) σ'))
  <-> b = b'.
Proof.
  intros Hent Hent' Hb Hb' Hlogged.
  destruct (Encode_unclassified_log e msg σ) as (_ & Hlog & _).
  destruct (Encode_unclassified_log e msg σ') as (_ & Hlog' & _).
  rewrite Hent, <- Hb, readFull_app in Hlog.
  rewrite Hent', <- Hb', readFull_app, Hlogged in Hlog'.
  cbn [fst] in Hlog, Hlog'. rewrite Hlog, Hlog'.
  split; [| intros ->; reflexivity].
  intros H. apply app_inv_head in H. injection H as H.
  apply EncodeToString_inj_6; [exact Hb | exact Hb' |].
  apply (append_inj_l _ _ ": " ": "); [| exact H].
  rewrite !EncodeToString_length_6 by assumption. reflexivity.
Qed.

(** X11. The error of [io.ReadFull] is dropped: when the random source delivers
    nothing, the six bytes stay zero and every id is [AAAAAAAA]. *)
Theorem id_without_entropy (e : errorEncoder) (msg : string) (σ : World) :
  entropy σ = "" ->
  let o := Encode e (unclassified msg) σ in
  logged (outcomeWorld o)
  = (logged σ ++ [logger_Error ["id"; "AAAAAAAA: "; "error"; msg]])%list
  /\ entropy (outcomeWorld o) = "".
Proof.
  intros Hent o.
  destruct (Encode_unclassified_log e msg σ) as (_ & Hlog & Hrest).
  fold o in Hlog, Hrest. rewrite Hent in Hlog, Hrest.
  split; [exact Hlog | exact Hrest].
Qed.

(** X12. The nil interface takes the default branch: the header is set and the
    status 500 written, then [handled.Error()] panics; nothing is written
    to the body and nothing is logged. *)
Theorem Encode_nil_error (e : errorEncoder) (σ : World) :
  let o := Encode e nil_error σ in
  let w0 := writers σ (ee_w e) in
  let w' := writers (outcomeWorld o) (ee_w e) in
  returned o = false
  /\ rw_sent w'
     = rw_sent (rw_WriteHeader http_StatusInternalServerError
                  (rw_Header_Set "Content-Type" "text/plain" w0))
  /\ rw_body w' = rw_body w0
  /\ logged (outcomeWorld o) = logged σ.
Proof.
  unfold Encode, rand_Read.
  destruct (readFull 6 (entropy σ)) as [b rest].
  cbn [error_Error outcomeWorld returned].
  rewrite !writers_updWriter. cbn [writers logged updWriter].
  repeat split.
  unfold rw_WriteHeader, rw_Header_Set. cbn [rw_sent].
  destruct (rw_sent (writers σ (ee_w e))); reflexivity.
Qed.

End SuccessiveErrors.

(** ** White space around the media type *)

Section SurroundingSpace.

Context {U : UnicodeTables}.

Lemma append_assoc (a b c : string) : (a +:+ b) +:+ c = a +:+ (b +:+ c).
Proof.
  induction a as [| x a IH]; [reflexivity |].
  rewrite !append_cons, IH. reflexivity.
Qed.

Lemma srev_append_app (s acc : string) :
  srev_append s acc = srev s +:+ acc.
Proof.
  unfold srev. revert acc. induction s as [| c s IH]; intros acc; [reflexivity |].
  simpl. rewrite IH, (IH (String c "")), append_assoc. reflexivity.
Qed.

Lemma srev_app (a b : string) : srev (a +:+ b) = srev b +:+ srev a.
Proof.
  induction a as [| c a IH].
  - rewrite append_nil, append_empty. reflexivity.
  - rewrite append_cons. unfold srev at 1 3. simpl.
    rewrite !srev_append_app, IH, append_assoc. reflexivity.
Qed.

Lemma allChars_app (f : ascii -> bool) (a b : string) :
  allChars f (a +:+ b) = allChars f a && allChars f b.
Proof.
  induction a as [| c a IH]; [reflexivity |].
  rewrite append_cons. simpl. rewrite IH, andb_assoc. reflexivity.
Qed.

Lemma allChars_srev (f : ascii -> bool) (s : string) :
  allChars f (srev s) = allChars f s.
Proof.
  induction s as [| c s IH]; [reflexivity |].
  unfold srev. simpl. rewrite srev_append_app, allChars_app, IH. simpl.
  rewrite andb_true_r. apply andb_comm.
Qed.

Lemma trimLeftSpace_spaces (ws s : string) :
  allChars isASCIISpace ws = true ->
  trimLeftSpace (ws +:+ s) = trimLeftSpace s.
Proof.
  induction ws as [| c ws IH]; [reflexivity |].
  intros H. cbn [allChars] in H. apply andb_true_iff in H.
  destruct H as [Hc Hws].
  rewrite append_cons, trimLeftSpace_cons, Hc. apply IH, Hws.
Qed.

Lemma trimLeftSpaceRev_spaces (ws s : string) :
  allChars isASCIISpace ws = true ->
  trimLeftSpaceRev (ws +:+ s) = trimLeftSpaceRev s.
Proof.
  induction ws as [| c ws IH]; [reflexivity |].
  intros H. cbn [allChars] in H. apply andb_true_iff in H.
  destruct H as [Hc Hws].
  rewrite append_cons, trimLeftSpaceRev_cons, Hc. apply IH, Hws.
Qed.

(** White space on either side of a supported media type is trimmed away. *)
Lemma TrimSpace_mediaType (c : Codec) (ws1 ws2 : string) :
  allChars isASCIISpace ws1 = true -> allChars isASCIISpace ws2 = true ->
  TrimSpace (ws1 +:+ mediaType c +:+ ws2) = mediaType c.
Proof.
  intros H1 H2. unfold TrimSpace, trimRightSpace.
  rewrite (trimLeftSpace_spaces ws1 _ H1).
  assert (Hkeep : trimLeftSpace (mediaType c +:+ ws2) = mediaType c +:+ ws2).
  { destruct c; apply trimLeftSpace_keeps; reflexivity. }
  rewrite Hkeep, srev_app.
  rewrite trimLeftSpaceRev_spaces by (rewrite allChars_srev; exact H2).
  destruct c; reflexivity.
Qed.

Lemma space_facts (c : ascii) :
  isASCIISpace c = true ->
  (byteval c <? 128)%N = true /\ lowerByte c = c /\ Ascii.eqb c ";" = false.
Proof.
  destruct c as [[] [] [] [] [] [] [] []]; vm_compute; intuition congruence.
Qed.

Lemma spaces_facts (ws : string) :
  allChars isASCIISpace ws = true ->
  isASCII ws = true /\ asciiLower ws = ws /\ cut ";" ws = (ws, false).
Proof.
  induction ws as [| c ws IH]; [auto |].
  simpl. intros H. apply andb_true_iff in H. destruct H as [Hc Hws].
  destruct (space_facts c Hc) as (H1 & H2 & H3).
  destruct (IH Hws) as (I1 & I2 & I3).
  rewrite H1, H2, H3, I1, I2, I3. auto.
Qed.

Lemma isASCII_app (a b : string) : isASCII (a +:+ b) = isASCII a && isASCII b.
Proof.
  induction a as [| c a IH]; [reflexivity |].
  rewrite append_cons. simpl. rewrite IH, andb_assoc. reflexivity.
Qed.

Lemma asciiLower_app (a b : string) :
  asciiLower (a +:+ b) = asciiLower a +:+ asciiLower b.
Proof.
  induction a as [| c a IH]; [reflexivity |].
  rewrite append_cons. simpl. rewrite IH. reflexivity.
Qed.

Lemma cut_not_found_app (a b : string) :
  cut ";" a = (a, false) -> cut ";" (a +:+ b) = (a +:+ fst (cut ";" b), snd (cut ";" b)).
Proof.
  induction a as [| c a IH]; intros H.
  - rewrite !append_nil. destruct (cut ";" b). reflexivity.
  - rewrite !append_cons. simpl in *.
    destruct (Ascii.eqb c ";"); [discriminate H |].
    destruct (cut ";" a) as [x f]. injection H as Hx ->.
    rewrite IH by (rewrite Hx; reflexivity).
    reflexivity.
Qed.

Lemma sdrop_app (a b : string) : sdrop (String.length a) (a +:+ b) = b.
Proof. induction a as [| c a IH]; [reflexivity | exact IH]. Qed.

(** X4. A supported media type in any mix of upper and lower case, with white
    space (spaces, tabs, line ends) before and after it, is matched as the
    media type alone, also before a parameter section the parser accepts. *)
Theorem surrounding_space_is_ignored (ws1 base ws2 tail : string) (c : Codec)
    (r : Request) (w : WriterRef) :
  allChars isASCIISpace ws1 = true -> allChars isASCIISpace ws2 = true ->
  asciiLower base = mediaType c ->
  tail = ""
  \/ (hasPrefixByte ";" tail = true
      /\ snd (ParseMediaType (ws1 +:+ base +:+ ws2 +:+ tail)) = None) ->
  let h := ws1 +:+ base +:+ ws2 +:+ tail in
  (Header_Get (Header r) "Content-Type" = h ->
   NewHTTPDecoder r = decoderOf c (Body r))
  /\ (Header_Get (Header r) "Accept" = h ->
      NewHTTPEncoder w r = encoderOf c w
      /\ ResponseContentType r = mediaType c).
Proof.
  intros H1 H2 Hlow Htail h.
  destruct (spaces_facts ws1 H1) as (A1 & L1 & C1).
  destruct (spaces_facts ws2 H2) as (A2 & L2 & C2).
  destruct (any_case_base base c Hlow) as [Ab Cb].
  set (head := ws1 +:+ base +:+ ws2).
  assert (Hh : h = head +:+ tail).
  { unfold h, head. rewrite !append_assoc. reflexivity. }
  assert (Hhead : cut ";" head = (head, false)).
  { unfold head. rewrite (cut_not_found_app ws1 _ C1).
    rewrite (cut_not_found_app base _ Cb), C2. reflexivity. }
  assert (Hmt : TrimSpace (ToLower head) = mediaType c).
  { unfold ToLower, head. rewrite !isASCII_app, A1, Ab, A2. cbn [andb].
    rewrite !asciiLower_app, L1, L2, Hlow. apply TrimSpace_mediaType; assumption. }
  assert (Hchk : checkMediaTypeDisposition (mediaType c) = None)
    by (destruct c; vm_compute; reflexivity).
  assert (Hm : parsedMediaType h = mediaType c).
  { unfold parsedMediaType. rewrite Hh.
    destruct Htail as [-> | [Hsemi Hok]].
    - unfold ParseMediaType. rewrite append_empty, Hhead, Hmt, Hchk.
      rewrite sdrop_length. reflexivity.
    - fold h in Hok. rewrite Hh in Hok.
      destruct (ParseMediaType (head +:+ tail)) as [m e] eqn:Hp.
      simpl in Hok. subst e.
      apply ParseMediaType_accepted in Hp.
      rewrite (cut_not_found_app head tail Hhead) in Hp.
      destruct tail as [| t0 tail]; [discriminate Hsemi |].
      simpl in Hsemi. simpl in Hp. rewrite Hsemi in Hp. simpl in Hp.
      rewrite append_empty, Hmt in Hp. exact Hp. }
  assert (Hne : String.eqb h "" = false).
  { destruct (String.eqb_spec h "") as [He | _]; [| reflexivity].
    exfalso. unfold parsedMediaType in Hm. rewrite He in Hm.
    destruct c; discriminate Hm. }
  split; intros Hget.
  - rewrite NewHTTPDecoder_unfold. simpl. rewrite Hget, Hne, Hm.
    apply switchDecoder_mediaType.
  - rewrite NewHTTPEncoder_unfold, ResponseContentType_unfold. simpl.
    rewrite Hget, Hne, Hm. split; [apply switchEncoder_mediaType |].
    destruct c; reflexivity.
Qed.

End SurroundingSpace.

(** * Examples *)


Lemma unsupported_types_select_json_witness :
  ~ supported (parsedMediaType (U := identityTables)
                 (Header_Get (Header htmlRequest) "Content-Type"))
  /\ Header htmlRequest !! "Accept" = None
  /\ NewHTTPDecoder (U := identityTables) htmlRequest = json_NewDecoder "<p>"
  /\ NewHTTPEncoder (U := identityTables) 0 htmlRequest = json_NewEncoder 0.
Proof.
  assert (H1 : ~ supported (parsedMediaType (U := identityTables)
                              (Header_Get (Header htmlRequest) "Content-Type"))).
  { vm_compute. intros [H | [H | H]]; discriminate H. }
  assert (H2 : Header htmlRequest !! "Accept" = None) by reflexivity.
  split; [exact H1 |]. split; [exact H2 |].
  destruct (unsupported_types_select_json (U := identityTables) htmlRequest 0)
    as (Hdec & _ & _ & Henc).
  split; [exact (Hdec H1) | exact (Henc H2)].
Defined.

Lemma ResponseContentType_spec_witness :
  supported (parsedMediaType (U := identityTables)
               (Header_Get (Header mixedCase) "Accept"))
  /\ ResponseContentType (U := identityTables) mixedCase = "application/gob".
Proof.
  assert (H : supported (parsedMediaType (U := identityTables)
                           (Header_Get (Header mixedCase) "Accept"))).
  { vm_compute. right. left. reflexivity. }
  split; [exact H |].
  destruct (ResponseContentType_spec (U := identityTables) mixedCase)
    as ([_ Hback] & _ & _).
  rewrite (Hback H). reflexivity.
Defined.

Lemma accepted_parameters_are_stripped_witness :
  snd (ParseMediaType (U := identityTables)
         (mediaType JSON +:+ ";" +:+ " charset=utf-8")) = None
  /\ NewHTTPDecoder (U := identityTables) jsonWithCharset = json_NewDecoder "{}"
  /\ NewHTTPEncoder (U := identityTables) 0 jsonWithCharset = json_NewEncoder 0
  /\ ResponseContentType (U := identityTables) jsonWithCharset
     = "application/json".
Proof.
  assert (H : snd (ParseMediaType (U := identityTables)
                     (mediaType JSON +:+ ";" +:+ " charset=utf-8")) = None)
    by (vm_compute; reflexivity).
  split; [exact H |].
  destruct (accepted_parameters_are_stripped (U := identityTables)
              JSON " charset=utf-8" jsonWithCharset 0 H) as [Hdec Henc].
  split; [exact (Hdec eq_refl) | exact (Henc eq_refl)].
Defined.

(** C4, counterexample. A supported media type followed by two parameters of
    one name and different values: the parser returns an error, the whole
    value is matched, and the JSON codec is selected where the media type
    alone selects XML. The header is ASCII, so the case tables are not
    reached. *)
Lemma repeated_parameter_is_not_stripped :
  snd (ParseMediaType (U := identityTables)
         "application/xml; charset=utf-8; charset=ascii")
    = Some errDuplicateParameter
  /\ NewHTTPDecoder (U := identityTables) xmlTwoCharsets = json_NewDecoder "<a/>"
  /\ NewHTTPDecoder (U := identityTables) xmlBare = xml_NewDecoder "<a/>"
  /\ NewHTTPEncoder (U := identityTables) 0 xmlTwoCharsets = json_NewEncoder 0
  /\ NewHTTPEncoder (U := identityTables) 0 xmlBare = xml_NewEncoder 0
  /\ ResponseContentType (U := identityTables) xmlTwoCharsets = "application/json"
  /\ ResponseContentType (U := identityTables) xmlBare = "application/xml".
Proof. vm_compute. repeat split. Qed.

Lemma rejected_header_is_matched_raw_witness :
  "application/xml, text/html" <> ""
  /\ snd (ParseMediaType (U := identityTables) "application/xml, text/html")
     <> None
  /\ NewHTTPDecoder (U := identityTables) acceptList = json_NewDecoder "<a/>"
  /\ NewHTTPEncoder (U := identityTables) 0 acceptList = json_NewEncoder 0
  /\ ResponseContentType (U := identityTables) acceptList = "application/json".
Proof.
  assert (H1 : "application/xml, text/html" <> "") by discriminate.
  assert (H2 : snd (ParseMediaType (U := identityTables)
                      "application/xml, text/html") <> None)
    by (vm_compute; discriminate).
  split; [exact H1 |]. split; [exact H2 |].
  destruct (rejected_header_is_matched_raw (U := identityTables)
              "application/xml, text/html" acceptList 0 H1 H2) as [Hdec Henc].
  destruct (Hdec eq_refl) as [_ Hjson].
  destruct (Henc eq_refl) as (_ & Hjson' & Hct).
  auto.
Defined.

Lemma media_type_case_is_ignored_witness :
  asciiLower "Application/XML" = mediaType XML
  /\ asciiLower "APPLICATION/GOB" = mediaType Gob
  /\ NewHTTPDecoder (U := identityTables) mixedCase = xml_NewDecoder "<a/>"
  /\ NewHTTPEncoder (U := identityTables) 0 mixedCase = gob_NewEncoder 0
  /\ ResponseContentType (U := identityTables) mixedCase = "application/gob".
Proof.
  assert (H1 : asciiLower "Application/XML" = mediaType XML) by reflexivity.
  assert (H2 : asciiLower "APPLICATION/GOB" = mediaType Gob) by reflexivity.
  split; [exact H1 |]. split; [exact H2 |].
  destruct (media_type_case_is_ignored (U := identityTables)
              "Application/XML" "" XML mixedCase 0 H1 (or_introl eq_refl))
    as [Hdec _].
  destruct (media_type_case_is_ignored (U := identityTables)
              "APPLICATION/GOB" "" Gob mixedCase 0 H2 (or_introl eq_refl))
    as [_ Henc].
  split; [exact (Hdec eq_refl) | exact (Henc eq_refl)].
Defined.





(** ** The model on further inputs *)

(** The test vectors of RFC 4648, without padding. *)
Example RawURLEncoding_vectors :
  RawURLEncoding_EncodeToString "f" = "Zg"
  /\ RawURLEncoding_EncodeToString "fo" = "Zm8"
  /\ RawURLEncoding_EncodeToString "foo" = "Zm9v"
  /\ RawURLEncoding_EncodeToString "foob" = "Zm9vYg"
  /\ RawURLEncoding_EncodeToString "fooba" = "Zm9vYmE"
  /\ RawURLEncoding_EncodeToString "foobar" = "Zm9vYmFy".
Proof. vm_compute. repeat split. Qed.

Example ParseMediaType_examples :
  ParseMediaType (U := identityTables) "text/html; charset=utf-8"
    = ("text/html", None)
  /\ ParseMediaType (U := identityTables) "Text/HTML ; Charset=UTF-8 ;"
     = ("text/html", None)
  /\ ParseMediaType (U := identityTables) "text/html; q"
     = ("text/html", Some ErrInvalidMediaParameter)
  /\ ParseMediaType (U := identityTables) "text/html; a=1; A=2"
     = ("", Some errDuplicateParameter)
  /\ ParseMediaType (U := identityTables) "text/html; a=1; a=1"
     = ("text/html", None)
  /\ ParseMediaType (U := identityTables) "text/html; t*0=a; t*1=b"
     = ("text/html", None)
  /\ ParseMediaType (U := identityTables) "application/xml, text/html"
     = ("", Some errUnexpectedContent)
  /\ ParseMediaType (U := identityTables) "text" = ("text", None)
  /\ ParseMediaType (U := identityTables) "text/" = ("", Some errExpectedToken)
  /\ ParseMediaType (U := identityTables) "" = ("", Some errNoMediaType).
Proof. vm_compute. repeat split. Qed.

(** An encoder that rejects the value: nothing is written after the status
    line, and the failure is logged. *)
Example Encode_marshal_failure :
  let o := Encode (U := identityTables) (P := rest_spec) (C := failingCodecs)
             jsonErrorEncoder (classified notFound) freshWorld in
  returned o = true
  /\ sentStatus (writers (outcomeWorld o) 0) = Some 404%Z
  /\ rw_body (writers (outcomeWorld o) 0) = ""
  /\ logged (outcomeWorld o)
     = [logger_Error ["encoding"; "json: unsupported value"]].
Proof. vm_compute. repeat split. Qed.

(** The nil interface takes the default branch and panics at
    [handled.Error()], after the status line was written. *)
Example Encode_nil_panics :
  let o := Encode (U := identityTables) (P := rest_spec) (C := exampleCodecs)
             jsonErrorEncoder nil_error freshWorld in
  returned o = false
  /\ sentStatus (writers (outcomeWorld o) 0) = Some 500%Z
  /\ rw_body (writers (outcomeWorld o) 0) = ""
  /\ logged (outcomeWorld o) = [].
Proof. vm_compute. repeat split. Qed.

(** When [rand.Reader] delivers nothing the six bytes stay zero. *)
Example Encode_without_entropy :
  rw_body (writers (outcomeWorld
    (Encode (U := identityTables) (P := rest_spec) (C := exampleCodecs)
       jsonErrorEncoder (unclassified "boom") (newWorld emptyWriter ""))) 0)
  = "AAAAAAAA: boom".
Proof. vm_compute. reflexivity. Qed.

(** ** Instances of the further properties *)

Lemma token_parameters_are_stripped_witness :
  wellFormedParams [("charset", "utf-8"); ("Q", "0.9")]
  /\ NewHTTPDecoder (U := identityTables) xmlCharsetQ = xml_NewDecoder "<a/>"
  /\ NewHTTPEncoder (U := identityTables) 0 xmlCharsetQ = xml_NewEncoder 0
  /\ ResponseContentType (U := identityTables) xmlCharsetQ = "application/xml".
Proof.
  assert (H : wellFormedParams [("charset", "utf-8"); ("Q", "0.9")]).
  { split.
    - repeat constructor.
    - repeat constructor; rewrite ?list_elem_of_In; simpl; intuition discriminate. }
  split; [exact H |].
  destruct (token_parameters_are_stripped (U := identityTables) XML
              [("charset", "utf-8"); ("Q", "0.9")] xmlCharsetQ 0 H)
    as [Hdec Henc].
  split; [exact (Hdec eq_refl) | exact (Henc eq_refl)].
Defined.

Lemma echoed_content_type_selects_same_codec_witness :
  Header_Get (Header gobEcho) "Content-Type"
    = ResponseContentType (U := identityTables) gobAccept
  /\ Header_Get (Header gobEcho) "Accept"
     = ResponseContentType (U := identityTables) gobAccept
  /\ NewHTTPDecoder (U := identityTables) gobEcho = gob_NewDecoder "payload"
  /\ NewHTTPEncoder (U := identityTables) 0 gobEcho = gob_NewEncoder 0.
Proof.
  assert (H1 : Header_Get (Header gobEcho) "Content-Type"
               = ResponseContentType (U := identityTables) gobAccept)
    by (vm_compute; reflexivity).
  assert (H2 : Header_Get (Header gobEcho) "Accept"
               = ResponseContentType (U := identityTables) gobAccept)
    by (vm_compute; reflexivity).
  split; [exact H1 |]. split; [exact H2 |].
  destruct (echoed_content_type_selects_same_codec (U := identityTables)
              gobAccept gobEcho 0) as [Hdec Henc].
  split.
  - etransitivity; [exact (Hdec H1) | vm_compute; reflexivity].
  - etransitivity; [exact (proj1 (Henc H2)) | vm_compute; reflexivity].
Defined.

Lemma json_with_any_parameters_witness :
  snd (ParseMediaType (U := identityTables) "application/json; charset")
    = Some ErrInvalidMediaParameter
  /\ NewHTTPDecoder (U := identityTables) jsonBadParameter = json_NewDecoder "{}"
  /\ NewHTTPEncoder (U := identityTables) 0 jsonBadParameter = json_NewEncoder 0
  /\ ResponseContentType (U := identityTables) jsonBadParameter
     = "application/json".
Proof.
  split; [vm_compute; reflexivity |].
  destruct (json_with_any_parameters (U := identityTables) " charset"
              jsonBadParameter 0) as [Hdec Henc].
  split; [exact (Hdec eq_refl) | exact (Henc eq_refl)].
Defined.

Lemma media_type_list_selects_json_witness :
  isASCII (fst (cut ";" browserAccept)) = true
  /\ containsByte (fst (cut ";" browserAccept)) "," = true
  /\ NewHTTPDecoder (U := identityTables) browserRequest = json_NewDecoder "<a/>"
  /\ NewHTTPEncoder (U := identityTables) 0 browserRequest = json_NewEncoder 0
  /\ ResponseContentType (U := identityTables) browserRequest
     = "application/json".
Proof.
  assert (H1 : isASCII (fst (cut ";" browserAccept)) = true) by reflexivity.
  assert (H2 : containsByte (fst (cut ";" browserAccept)) "," = true)
    by reflexivity.
  split; [exact H1 |]. split; [exact H2 |].
  destruct (media_type_list_selects_json (U := identityTables) browserAccept
              browserRequest 0 H1 H2) as [Hdec Henc].
  split; [exact (Hdec eq_refl) | exact (Henc eq_refl)].
Defined.

Lemma surrounding_space_is_ignored_witness :
  allChars isASCIISpace "  " = true
  /\ allChars isASCIISpace (" " +:+ tab) = true
  /\ asciiLower "Application/XML" = mediaType XML
  /\ snd (ParseMediaType (U := identityTables)
            ("  " +:+ "Application/XML" +:+ (" " +:+ tab) +:+ "; charset=utf-8"))
     = None
  /\ NewHTTPDecoder (U := identityTables) spacedXml = xml_NewDecoder "<a/>"
  /\ NewHTTPEncoder (U := identityTables) 0 spacedXml = xml_NewEncoder 0
  /\ ResponseContentType (U := identityTables) spacedXml = "application/xml".
Proof.
  assert (H1 : allChars isASCIISpace "  " = true) by reflexivity.
  assert (H2 : allChars isASCIISpace (" " +:+ tab) = true) by reflexivity.
  assert (H3 : asciiLower "Application/XML" = mediaType XML) by reflexivity.
  assert (H4 : snd (ParseMediaType (U := identityTables)
                      ("  " +:+ "Application/XML" +:+ (" " +:+ tab)
                       +:+ "; charset=utf-8")) = None)
    by (vm_compute; reflexivity).
  split; [exact H1 |]. split; [exact H2 |]. split; [exact H3 |].
  split; [exact H4 |].
  destruct (surrounding_space_is_ignored (U := identityTables)
              "  " "Application/XML" (" " +:+ tab) "; charset=utf-8" XML
              spacedXml 0 H1 H2 H3 (or_intror (conj eq_refl H4)))
    as [Hdec Henc].
  split; [exact (Hdec eq_refl) | exact (Henc eq_refl)].
Defined.

Lemma Encode_touches_one_writer_witness :
  1 <> 0
  /\ writers (outcomeWorld
       (Encode (U := identityTables) (P := rest_spec) (C := exampleCodecs)
          (NewErrorHTTPEncoder (U := identityTables) 0 acceptJSON tt)
          (classified notFound) twoWriters)) 1
     = startedWriter.
Proof.
  assert (H : 1 <> 0) by discriminate.
  split; [exact H |].
  exact (Encode_touches_one_writer (U := identityTables) (P := rest_spec)
           (C := exampleCodecs) 0 1 acceptJSON tt (classified notFound)
           twoWriters H).
Defined.


Lemma Encode_after_header_sent_witness :
  rw_sent (writers startedWorld (ee_w jsonErrorEncoder)) <> None
  /\ sentStatus (writers (outcomeWorld
       (Encode (U := identityTables) (P := rest_spec) (C := exampleCodecs)
          jsonErrorEncoder (classified notFound) startedWorld)) 0)
     = Some 200%Z.
Proof.
  assert (H : rw_sent (writers startedWorld (ee_w jsonErrorEncoder)) <> None)
    by discriminate.
  split; [exact H |].
  pose proof (Encode_after_header_sent (U := identityTables) (P := rest_spec)
                (C := exampleCodecs) jsonErrorEncoder (classified notFound)
                startedWorld H) as Hkeep.
  change (ee_w jsonErrorEncoder) with 0 in Hkeep.
  unfold sentStatus. rewrite Hkeep. reflexivity.
Defined.

Lemma correlation_id_injective_witness :
  entropy (newWorld emptyWriter "random") = "random" +:+ ""
  /\ entropy (newWorld emptyWriter "source") = "source" +:+ ""
  /\ logged (outcomeWorld
       (Encode (U := identityTables) (P := rest_spec) (C := exampleCodecs)
          jsonErrorEncoder (unclassified "boom")
          (newWorld emptyWriter "random")))
     <> logged (outcomeWorld
          (Encode (U := identityTables) (P := rest_spec) (C := exampleCodecs)
             jsonErrorEncoder (unclassified "boom")
             (newWorld emptyWriter "source"))).
Proof.
  assert (H1 : entropy (newWorld emptyWriter "random") = "random" +:+ "")
    by reflexivity.
  assert (H2 : entropy (newWorld emptyWriter "source") = "source" +:+ "")
    by reflexivity.
  split; [exact H1 |]. split; [exact H2 |].
  intros Hsame.
  apply (correlation_id_injective (U := identityTables) (P := rest_spec)
           (C := exampleCodecs) jsonErrorEncoder "boom"
           (newWorld emptyWriter "random") (newWorld emptyWriter "source")
           "random" "source" "" "" H1 H2 eq_refl eq_refl eq_refl) in Hsame.
  discriminate Hsame.
Defined.

Lemma successive_ids_witness :
  entropy (newWorld emptyWriter "randomsource") = "random" +:+ "source" +:+ ""
  /\ "random" <> "source"
  /\ logged (outcomeWorld
       (Encode (U := identityTables) (P := rest_spec) (C := exampleCodecs)
          jsonErrorEncoder (unclassified "bang")
          (outcomeWorld
             (Encode (U := identityTables) (P := rest_spec)
                (C := exampleCodecs) jsonErrorEncoder (unclassified "boom")
                (newWorld emptyWriter "randomsource")))))
     = [logger_Error ["id"; "cmFuZG9t: "; "error"; "boom"];
        logger_Error ["id"; "c291cmNl: "; "error"; "bang"]].
Proof.
  assert (H : entropy (newWorld emptyWriter "randomsource")
              = "random" +:+ "source" +:+ "") by reflexivity.
  split; [exact H |]. split; [discriminate |].
  destruct (successive_ids (U := identityTables) (P := rest_spec)
              (C := exampleCodecs) jsonErrorEncoder jsonErrorEncoder
              "boom" "bang" (newWorld emptyWriter "randomsource")
              "random" "source" "" H eq_refl eq_refl) as (Hlog & _ & _).
  etransitivity; [exact Hlog | reflexivity].
Defined.

Lemma id_without_entropy_witness :
  entropy (newWorld emptyWriter "") = ""
  /\ logged (outcomeWorld
       (Encode (U := identityTables) (P := rest_spec) (C := exampleCodecs)
          jsonErrorEncoder (unclassified "boom") (newWorld emptyWriter "")))
     = [logger_Error ["id"; "AAAAAAAA: "; "error"; "boom"]].
Proof.
  split; [reflexivity |].
  exact (proj1 (id_without_entropy (U := identityTables) (P := rest_spec)
                  (C := exampleCodecs) jsonErrorEncoder "boom"
                  (newWorld emptyWriter "") eq_refl)).
Defined.
